(** * The KMS grant resource: constraint hashing, validation, paginated
      lookup and the create / read / delete / exists operations.

    Shallow embedding of the KMS grant resource of package [aws].  Go maps
    are association lists with pairwise distinct keys (the list order
    stands for Go's unspecified iteration order), pointer-typed SDK fields
    are [option]s whose dereference panics on [None], and the calls on the
    KMS connection run in a state monad over a scripted remote: for each
    API the responses it will give, in order, and the trace of the calls it
    has received.  A call on a remote with no response left never
    returns ([Blocked]).  [resource.Retry] comes from the helper library;
    its wall-clock deadline is abstracted into a number of attempts. *)

From Stdlib Require Import ZArith Lia.
From stdpp Require Import base option list relations sorting strings.

(** ** Strings and string maps *)

(** [map[string]string]: entries in iteration order. *)
Definition StringMap : Type := list (string * string).

(** [m[key]] *)
Fixpoint mapIndex (m : StringMap) (key : string) : option string :=
  match m with
  | [] => None
  | (k, v) :: m' => if decide (k = key) then Some v else mapIndex m' key
  end.

(** [sort.Strings]: ascending byte-wise lexicographic order. *)
Definition sort_Strings (l : list string) : list string :=
  merge_sort String.le l.

(** [strings.Join] *)
Definition strings_Join (l : list string) (sep : string) : string :=
  String.concat sep l.

(** [strings.HasPrefix s prefix] *)
Definition strings_HasPrefix (s prefix : string) : bool :=
  String.prefix prefix s.

Definition sortStringMapKeys (m : StringMap) : list string :=
  let keys := fold_left (fun keys kv => keys ++ [kv.1]) m [] in
  sort_Strings keys.

(** The dereference [*m[key]] cannot fail: every [key] comes from [m]
    (lemma [sortStringMapKeys_lookup]); the default is never used. *)
Definition sortedConcatStringMap (m : StringMap) (sep : string) : string :=
  let mapKeys := sortStringMapKeys m in
  let strList :=
    fold_left (fun strList key => strList ++ [key; default "" (mapIndex m key)])
              mapKeys [] in
  strings_Join strList sep.

(** ** The constraint hash *)

(** One element of the ["constraints"] set: a [map[string]interface{}] with
    the two optional keys of the schema.  [None] is an absent key. *)
Record Constraint : Type := mkConstraint {
  encryption_context_equals : option StringMap;
  encryption_context_subset : option StringMap
}.

(** The text written to [buf] by [resourceKmsGrantConstraintsHash]. *)
Definition constraintsHashBuffer (m : Constraint) : string :=
  let buf := "" in
  let buf :=
    match encryption_context_equals m with
    | Some v =>
        if decide (0 < length v)%nat
        then buf +:+ ("encryption_context_equals-" +:+ sortedConcatStringMap v "-" +:+ "-")
        else buf
    | None => buf
    end in
  let buf :=
    match encryption_context_subset m with
    | Some v =>
        if decide (0 < length v)%nat
        then buf +:+ ("encryption_context_subset-" +:+ sortedConcatStringMap v "-" +:+ "-")
        else buf
    | None => buf
    end in
  buf.

Section Hasher.
(** [hashcode.String] of the Terraform helper library. *)
Variable hashcode_String : string -> Z.

(** [v] is [None] when the [interface{}] value is not a
    [map[string]interface{}] (the cast fails). *)
Definition resourceKmsGrantConstraintsHash (v : option Constraint) : Z :=
  match v with
  | None => 0%Z
  | Some m => hashcode_String (constraintsHashBuffer m)
  end.
End Hasher.

(** The IEEE CRC-32 that [hashcode.String] computes, on a 64-bit [int]. *)
Definition crc32_byte (crc b : Z) : Z :=
  Nat.iter 8
    (fun c => if Z.testbit c 0
              then Z.lxor (Z.shiftr c 1) 0xEDB88320
              else Z.shiftr c 1)
    (Z.lxor crc b).

Fixpoint crc32_update (crc : Z) (s : string) : Z :=
  match s with
  | EmptyString => crc
  | String a s' => crc32_update (crc32_byte crc (Z.of_N (Ascii.N_of_ascii a))) s'
  end.

Definition crc32_ChecksumIEEE (s : string) : Z :=
  Z.lxor (crc32_update 0xFFFFFFFF s) 0xFFFFFFFF.

Definition crc32_hashcode (s : string) : Z :=
  let v := crc32_ChecksumIEEE s in
  if (0 <=? v)%Z then v else if (0 <=? - v)%Z then (- v)%Z else 0%Z.

(** ** Errors *)

(** The Go type [KmsGrantMissingError] is a [string]. *)
Definition KmsGrantMissingError : Type := string.

(** Values of the [error] interface that the resource handles:
    [awserr.Error] with its code and message, the custom
    [KmsGrantMissingError], and errors built by [fmt.Errorf] (the format
    string with its operands, left unformatted). *)
Inductive error : Type :=
| AwsError (code message : string)
| MissingError (e : KmsGrantMissingError)
| Errorf (format : string) (args : list fmtArg)
with fmtArg : Type :=
| ArgString (s : string)
| ArgError (e : error).

Definition NewKmsGrantMissingError (msg : string) : KmsGrantMissingError := msg.

(** [resource.RetryError]: [Err] may be a nil [error]. *)
Record RetryError : Type := mkRetryError {
  Err : option error;
  Retryable : bool
}.

Definition RetryableError (err : error) : RetryError := mkRetryError (Some err) true.
Definition NonRetryableError (err : option error) : RetryError := mkRetryError err false.

(** *** [KmsGrantMissingError.Error]

    The method body is [return e.Error()]: the only way a call returns [s]
    is that the nested call on the same receiver returned [s]. *)
Inductive Error_returns : KmsGrantMissingError -> string -> Prop :=
| Error_self_call (e : KmsGrantMissingError) (s : string) :
    Error_returns e s -> Error_returns e s.

(** The same method as an evaluator on a bounded call stack: [None] when the
    stack depth is used up before the call returns. *)
Fixpoint Error_depth (depth : nat) (e : KmsGrantMissingError) : option string :=
  match depth with
  | O => None
  | S depth' => Error_depth depth' e
  end.

(** ** SDK structures *)

Record GrantConstraints : Type := mkGrantConstraints {
  EncryptionContextEquals : option StringMap;
  EncryptionContextSubset : option StringMap
}.

(** [kms.GrantListEntry]; [Operations] is shown after
    [aws.StringValueSlice]. *)
Record GrantListEntry : Type := mkGrantListEntry {
  GrantId : option string;
  GranteePrincipal : option string;
  RetiringPrincipal : option string;
  Name : option string;
  Operations : list string;
  Constraints : option GrantConstraints
}.

Record ListGrantsInput : Type := mkListGrantsInput {
  lg_KeyId : string;
  lg_Limit : Z;
  lg_Marker : option string
}.

Record ListGrantsResponse : Type := mkListGrantsResponse {
  Grants : list GrantListEntry;
  Truncated : option bool;
  NextMarker : option string
}.

Record CreateGrantInput : Type := mkCreateGrantInput {
  cg_GranteePrincipal : string;
  cg_KeyId : string;
  cg_Operations : list string;
  cg_Name : option string;
  cg_Constraints : option GrantConstraints;
  cg_RetiringPrincipal : option string;
  cg_GrantTokens : list string
}.

Record CreateGrantOutput : Type := mkCreateGrantOutput {
  out_GrantId : option string;
  out_GrantToken : option string
}.

Record RevokeGrantInput : Type := mkRevokeGrantInput {
  rg_GrantId : string;
  rg_KeyId : string
}.

(** ** The remote and the monad of connection calls *)

Inductive Call : Type :=
| CallCreateGrant (input : CreateGrantInput)
| CallListGrants (input : ListGrantsInput)
| CallRevokeGrant (input : RevokeGrantInput).

(** The KMS connection: for each API the responses the remote will give, in
    order, and [calls], the requests received so far, oldest first. *)
Record World : Type := mkWorld {
  createGrantResp : list (option CreateGrantOutput * option error);
  listGrantsResp : list (option ListGrantsResponse * option error);
  revokeGrantResp : list (option error);
  calls : list Call
}.

(** A Go computation returns, panics (nil dereference), or waits forever on
    a remote that gives no further response. *)
Inductive Outcome (A : Type) : Type :=
| Ret (a : A)
| Panic
| Blocked.
Arguments Ret {A} a.
Arguments Panic {A}.
Arguments Blocked {A}.

Definition M (A : Type) : Type := World -> Outcome A * World.

Definition ret {A} (a : A) : M A := fun w => (Ret a, w).

Definition bind {A B} (c : M A) (k : A -> M B) : M B :=
  fun w =>
    match c w with
    | (Ret a, w') => k a w'
    | (Panic, w') => (Panic, w')
    | (Blocked, w') => (Blocked, w')
    end.

Notation "'let*' x ':=' c 'in' k" := (bind c (fun x => k))
  (at level 10, x pattern, c at level 100, k at level 200).

Definition lift {A} (o : Outcome A) : M A := fun w => (o, w).

(** [*p] *)
Definition deref {A} (p : option A) : Outcome A :=
  match p with
  | Some a => Ret a
  | None => Panic
  end.

Definition record (c : Call) (w : World) : World :=
  mkWorld (createGrantResp w) (listGrantsResp w) (revokeGrantResp w) (calls w ++ [c]).

Definition CreateGrant (input : CreateGrantInput)
  : M (option CreateGrantOutput * option error) :=
  fun w =>
    let w := record (CallCreateGrant input) w in
    match createGrantResp w with
    | [] => (Blocked, w)
    | r :: rest =>
        (Ret r, mkWorld rest (listGrantsResp w) (revokeGrantResp w) (calls w))
    end.

Definition ListGrants (input : ListGrantsInput)
  : M (option ListGrantsResponse * option error) :=
  fun w =>
    let w := record (CallListGrants input) w in
    match listGrantsResp w with
    | [] => (Blocked, w)
    | r :: rest =>
        (Ret r, mkWorld (createGrantResp w) rest (revokeGrantResp w) (calls w))
    end.

Definition RevokeGrant (input : RevokeGrantInput) : M (option error) :=
  fun w =>
    let w := record (CallRevokeGrant input) w in
    match revokeGrantResp w with
    | [] => (Blocked, w)
    | r :: rest =>
        (Ret r, mkWorld (createGrantResp w) (listGrantsResp w) rest (calls w))
    end.

(** ** [schema.ResourceData] for this resource *)

Record ResourceData : Type := mkResourceData {
  Id : string;
  name : string;
  key_id : string;
  grantee_principal : string;
  operations : list string;
  constraints : list Constraint;
  retiring_principal : string;
  grant_creation_tokens : list string;
  grant_id : string;
  grant_token : string
}.

Definition SetId (v : string) (d : ResourceData) : ResourceData :=
  mkResourceData v (name d) (key_id d) (grantee_principal d) (operations d)
    (constraints d) (retiring_principal d) (grant_creation_tokens d)
    (grant_id d) (grant_token d).
Definition Set_name (v : string) (d : ResourceData) : ResourceData :=
  mkResourceData (Id d) v (key_id d) (grantee_principal d) (operations d)
    (constraints d) (retiring_principal d) (grant_creation_tokens d)
    (grant_id d) (grant_token d).
Definition Set_grantee_principal (v : string) (d : ResourceData) : ResourceData :=
  mkResourceData (Id d) (name d) (key_id d) v (operations d)
    (constraints d) (retiring_principal d) (grant_creation_tokens d)
    (grant_id d) (grant_token d).
Definition Set_operations (v : list string) (d : ResourceData) : ResourceData :=
  mkResourceData (Id d) (name d) (key_id d) (grantee_principal d) v
    (constraints d) (retiring_principal d) (grant_creation_tokens d)
    (grant_id d) (grant_token d).
Definition Set_constraints (v : list Constraint) (d : ResourceData) : ResourceData :=
  mkResourceData (Id d) (name d) (key_id d) (grantee_principal d) (operations d)
    v (retiring_principal d) (grant_creation_tokens d)
    (grant_id d) (grant_token d).
Definition Set_retiring_principal (v : string) (d : ResourceData) : ResourceData :=
  mkResourceData (Id d) (name d) (key_id d) (grantee_principal d) (operations d)
    (constraints d) v (grant_creation_tokens d)
    (grant_id d) (grant_token d).
Definition Set_grant_id (v : string) (d : ResourceData) : ResourceData :=
  mkResourceData (Id d) (name d) (key_id d) (grantee_principal d) (operations d)
    (constraints d) (retiring_principal d) (grant_creation_tokens d)
    v (grant_token d).
Definition Set_grant_token (v : string) (d : ResourceData) : ResourceData :=
  mkResourceData (Id d) (name d) (key_id d) (grantee_principal d) (operations d)
    (constraints d) (retiring_principal d) (grant_creation_tokens d)
    (grant_id d) v.

(** [d.GetOk]: the value, when it is set and not the zero value of its
    type (the empty string, the empty set). *)
Definition GetOk_string (v : string) : option string :=
  if decide (v = "") then None else Some v.
Definition GetOk_set {A} (v : list A) : option (list A) :=
  match v with [] => None | _ => Some v end.

(** ** Constraint validation and conversion *)

Definition kmsGrantConstraintsIsValid (constraints : list Constraint) : bool :=
  let constraintCount :=
    fold_left
      (fun constraintCount data =>
         let constraintCount :=
           match encryption_context_equals data with
           | Some v => if decide (0 < length v) then constraintCount + 1
                       else constraintCount
           | None => constraintCount
           end in
         match encryption_context_subset data with
         | Some v => if decide (0 < length v) then constraintCount + 1
                     else constraintCount
         | None => constraintCount
         end)
      constraints 0 in
  if decide (1 < constraintCount) then false else true.

Definition expandKmsGrantConstraints (configured : list Constraint)
  : option GrantConstraints :=
  if decide (length configured < 1) then None
  else
    Some (fold_left
            (fun constraint data =>
               let constraint :=
                 match encryption_context_equals data with
                 | Some contextEq =>
                     mkGrantConstraints (Some contextEq)
                                        (EncryptionContextSubset constraint)
                 | None => constraint
                 end in
               match encryption_context_subset data with
               | Some contextSub =>
                   mkGrantConstraints (EncryptionContextEquals constraint)
                                      (Some contextSub)
               | None => constraint
               end)
            configured (mkGrantConstraints None None)).

Definition flattenKmsGrantConstraints (constraint : option GrantConstraints)
  : list Constraint :=
  match constraint with
  | None => []
  | Some constraint =>
      let m := mkConstraint None None in
      let m :=
        match EncryptionContextEquals constraint with
        | Some v => if decide (0 < length v)
                    then mkConstraint (Some v) (encryption_context_subset m)
                    else m
        | None => m
        end in
      let m :=
        match EncryptionContextSubset constraint with
        | Some v => if decide (0 < length v)
                    then mkConstraint (encryption_context_equals m) (Some v)
                    else m
        | None => m
        end in
      [m]
  end.

(** ** Lookup in one page *)

Fixpoint getKmsGrantById (grants : list GrantListEntry) (grantIdentifier : string)
  : Outcome (option GrantListEntry) :=
  match grants with
  | [] => Ret None
  | grant :: grants' =>
      match deref (GrantId grant) with
      | Ret id =>
          if decide (id = grantIdentifier) then Ret (Some grant)
          else getKmsGrantById grants' grantIdentifier
      | Panic => Panic
      | Blocked => Blocked
      end
  end.

Definition errConstraintsConflict : error :=
  Errorf "[ERROR] A grant constraint can't have both encryption_context_equals and encryption_context_subset set" [].

Definition isCreateGrantRetryable (err : error) : bool :=
  match err with
  | AwsError code _ =>
      bool_decide (code = "DependencyTimeoutException")
      || bool_decide (code = "InternalException")
      || bool_decide (code = "InvalidArnException")
  | _ => false
  end.

Definition isListGrantsRetryable (err : error) : bool :=
  match err with
  | AwsError code _ =>
      bool_decide (code = "NotFoundException")
      || bool_decide (code = "DependencyTimeoutException")
      || bool_decide (code = "InternalException")
  | _ => false
  end.

Definition grantMissingMessage (grantId keyId : string) : string :=
  "[DEBUG] Grant " +:+ grantId +:+ " not found for key id: " +:+ keyId.

Section Controller.
(** [resource.Retry] of the helper library, with wall-clock time
    abstracted: [retries] is how many further attempts fit in the
    three-minute budget after the first one, and [deadlineError] is the
    error that [Retry] reports for the last retryable failure once the
    budget is used up. *)
Variable retries : nat.
Variable deadlineError : error -> error.

(** The closure [f] assigns variables of the enclosing function; the
    first component of its result is their value after the attempt, and
    [Retry] hands back the value left by the last attempt. *)
Fixpoint Retry_loop {A} (n : nat) (f : M (A * option RetryError))
  : M (A * option error) :=
  let* (a, rerr) := f in
  match rerr with
  | None => ret (a, None)
  | Some rerr =>
      if Retryable rerr
      then match n with
           | O => ret (a, deadlineError <$> Err rerr)
           | S n' => Retry_loop n' f
           end
      else ret (a, Err rerr)
  end.

Definition Retry {A} (f : M (A * option RetryError)) : M (A * option error) :=
  Retry_loop retries f.

(** [fuel] bounds the number of pages; [findKmsGrantById] below supplies
    more than the remote has responses left, so it is never used up
    (lemma [findKmsGrantById_fuel]). *)
Fixpoint findKmsGrantById_pages (fuel : nat) (keyId grantId : string)
         (marker : option string)
  : M (option GrantListEntry * option error) :=
  match fuel with
  | O => fun w => (Blocked, w)
  | S fuel' =>
      let input := mkListGrantsInput keyId 100 marker in
      let* (out, err) :=
        Retry (let* (out, err) := ListGrants input in
               match err with
               | Some e =>
                   if isListGrantsRetryable e
                   then ret (out, Some (RetryableError e))
                   else ret (out, Some (NonRetryableError (Some e)))
               | None => ret (out, None)
               end) in
      let* out := lift (deref out) in
      let* grant := lift (getKmsGrantById (Grants out) grantId) in
      match grant with
      | Some grant => ret (Some grant, None)
      | None =>
          let* truncated := lift (deref (Truncated out)) in
          if truncated : bool
          then
            let* _ := lift (deref (NextMarker out)) in
            findKmsGrantById_pages fuel' keyId grantId (NextMarker out)
          else
            ret (None,
                 Some (MissingError
                         (NewKmsGrantMissingError
                            (grantMissingMessage grantId keyId))))
      end
  end.

Definition findKmsGrantById (keyId grantId : string) (marker : option string)
  : M (option GrantListEntry * option error) :=
  fun w =>
    findKmsGrantById_pages (S (length (listGrantsResp w))) keyId grantId marker w.

Definition findKmsGrantByIdWithRetry (keyId grantId : string)
  : M (option GrantListEntry * option error) :=
  Retry (let* (grant, err) := findKmsGrantById keyId grantId None in
         match err with
         | Some err =>
             match err with
             | MissingError serr =>
                 ret (grant, Some (RetryableError (MissingError serr)))
             | _ => ret (grant, Some (NonRetryableError (Some err)))
             end
         | None => ret (grant, None)
         end).

Definition waitForKmsGrantToBeRevoked (keyId grantId : string)
  : M (option error) :=
  let* (_, err) :=
    Retry (let* (grant, err) := findKmsGrantById keyId grantId None in
           match err with
           | Some (MissingError _) => ret (tt, None)
           | _ =>
               match grant with
               | Some grant =>
                   let* id := lift (deref (GrantId grant)) in
                   ret (tt,
                        Some (RetryableError
                                (Errorf "[DEBUG] Grant still exists while expected to be revoked, retyring revocation check: %s"
                                        [ArgString id])))
               | None => ret (tt, Some (NonRetryableError err))
               end
           end) in
  ret err.

Definition resourceAwsKmsGrantRead (d : ResourceData)
  : M (option error * ResourceData) :=
  let grantId := Id d in
  let keyId := key_id d in
  let* (grant, err) := findKmsGrantByIdWithRetry keyId grantId in
  match err with
  | Some err => ret (Some err, d)
  | None =>
      let d := match grant with
               | None => SetId "" d
               | Some _ => d
               end in
      match grant with
      | Some grant =>
          let* granteePrincipal := lift (deref (GranteePrincipal grant)) in
          let d := if strings_HasPrefix granteePrincipal "arn:aws"
                   then Set_grantee_principal granteePrincipal d
                   else d in
          let d := match RetiringPrincipal grant with
                   | Some retiringPrincipal =>
                       if strings_HasPrefix retiringPrincipal "arn:aws"
                       then Set_retiring_principal retiringPrincipal d
                       else d
                   | None => d
                   end in
          let d := Set_operations (Operations grant) d in
          let* grantName := lift (deref (Name grant)) in
          let d := if decide (grantName <> "") then Set_name grantName d else d in
          let d := match Constraints grant with
                   | Some c => Set_constraints (flattenKmsGrantConstraints (Some c)) d
                   | None => d
                   end in
          ret (None, d)
      | None => ret (None, d)
      end
  end.

Definition resourceAwsKmsGrantCreate (d : ResourceData)
  : M (option error * ResourceData) :=
  let input :=
    mkCreateGrantInput (grantee_principal d) (key_id d) (operations d)
                       None None None [] in
  let input :=
    match GetOk_string (name d) with
    | Some v =>
        mkCreateGrantInput (cg_GranteePrincipal input) (cg_KeyId input)
          (cg_Operations input) (Some v) (cg_Constraints input)
          (cg_RetiringPrincipal input) (cg_GrantTokens input)
    | None => input
    end in
  let checked : option error * CreateGrantInput :=
    match GetOk_set (constraints d) with
    | Some v =>
        if negb (kmsGrantConstraintsIsValid v)
        then (Some errConstraintsConflict, input)
        else (None,
              mkCreateGrantInput (cg_GranteePrincipal input) (cg_KeyId input)
                (cg_Operations input) (cg_Name input)
                (expandKmsGrantConstraints v)
                (cg_RetiringPrincipal input) (cg_GrantTokens input))
    | None => (None, input)
    end in
  match checked with
  | (Some err, _) => ret (Some err, d)
  | (None, input) =>
      let input :=
        match GetOk_string (retiring_principal d) with
        | Some v =>
            mkCreateGrantInput (cg_GranteePrincipal input) (cg_KeyId input)
              (cg_Operations input) (cg_Name input) (cg_Constraints input)
              (Some v) (cg_GrantTokens input)
        | None => input
        end in
      let input :=
        match GetOk_set (grant_creation_tokens d) with
        | Some v =>
            mkCreateGrantInput (cg_GranteePrincipal input) (cg_KeyId input)
              (cg_Operations input) (cg_Name input) (cg_Constraints input)
              (cg_RetiringPrincipal input) v
        | None => input
        end in
      let* (out, err) :=
        Retry (let* (out, err) := CreateGrant input in
               match err with
               | Some err =>
                   if isCreateGrantRetryable err
                   then ret (out,
                             Some (RetryableError
                                     (Errorf "[WARN] Error adding new KMS Grant for key: %s, retrying %s"
                                             [ArgString (cg_KeyId input); ArgError err])))
                   else ret (out, Some (NonRetryableError (Some err)))
               | None => ret (out, None)
               end) in
      match err with
      | Some err => ret (Some err, d)
      | None =>
          let* out := lift (deref out) in
          let* grantId := lift (deref (out_GrantId out)) in
          let d := SetId grantId d in
          let d := Set_grant_id grantId d in
          let d := Set_grant_token (default "" (out_GrantToken out)) d in
          resourceAwsKmsGrantRead d
      end
  end.

Definition resourceAwsKmsGrantDelete (d : ResourceData)
  : M (option error * ResourceData) :=
  let grantId := grant_id d in
  let keyId := key_id d in
  let input := mkRevokeGrantInput grantId keyId in
  let* err := RevokeGrant input in
  match err with
  | Some err => ret (Some err, d)
  | None =>
      let* err := waitForKmsGrantToBeRevoked keyId grantId in
      match err with
      | Some err => ret (Some err, d)
      | None => ret (None, SetId "" d)
      end
  end.

Definition resourceAwsKmsGrantExists (d : ResourceData)
  : M (bool * option error) :=
  let grantId := Id d in
  let keyId := key_id d in
  let* (grant, err) := findKmsGrantByIdWithRetry keyId grantId in
  match err with
  | Some _ => ret (true, err)
  | None =>
      match grant with
      | Some _ => ret (true, err)
      | None => ret (false, None)
      end
  end.
End Controller.

(** ** Vocabulary of the statements *)

(** The entries of [m] in the order in which they are written out. *)
Definition sortedEntries (m : StringMap) : list (string * string) :=
  (fun key => (key, default "" (mapIndex m key))) <$> sortStringMapKeys m.

(** The serialization in the words of the specification: one variant is
    written as its kind, then each key and value in the given order, all
    separated and closed by a dash; a variant without entries is not
    written at all. *)
Definition serializedVariant (kind : string) (entries : list (string * string))
  : string :=
  match entries with
  | [] => ""
  | _ :: _ =>
      kind +:+ "-"
      +:+ strings_Join (flat_map (fun kv => [kv.1; kv.2]) entries) "-" +:+ "-"
  end.

(** [entries] lists the key/value pairs of the mapping [v] (none when the
    key is absent) in ascending order of the keys. *)
Definition sortedListing (v : option StringMap) (entries : list (string * string))
  : Prop :=
  entries ≡ₚ default [] v /\ Sorted String.le entries.*1.

(** The validation rule in the words of the specification: the number of
    variants, across the whole set, whose mapping is not empty. *)
Definition variants (c : Constraint) : list StringMap :=
  option_list (encryption_context_equals c)
  ++ option_list (encryption_context_subset c).

Definition nonEmptyVariantCount (cs : list Constraint) : nat :=
  length (filter (fun m : StringMap => m <> []) (cs ≫= variants)).

(** [extends P w w']: the remote received, between [w] and [w'], only calls
    that satisfy [P]. *)
Definition extends (P : Call -> Prop) (w w' : World) : Prop :=
  exists l, calls w' = calls w ++ l /\ Forall P l.

Definition preserves (P : Call -> Prop) {A} (c : M A) : Prop :=
  forall w o w', c w = (o, w') -> extends P w w'.

(** [begins call c]: whatever [c] does, the remote first receives [call]. *)
Definition begins (call : Call) {A} (c : M A) : Prop :=
  forall w o w', c w = (o, w') -> exists l, calls w' = calls w ++ call :: l.

Definition isListGrantsCall (c : Call) : Prop :=
  match c with
  | CallListGrants _ => True
  | _ => False
  end.

(** The request that [resourceAwsKmsGrantCreate] builds from the resource
    data (lemma [resourceAwsKmsGrantCreate_valid]). *)
Definition createGrantRequest (d : ResourceData) : CreateGrantInput :=
  mkCreateGrantInput (grantee_principal d) (key_id d) (operations d)
    (GetOk_string (name d)) (expandKmsGrantConstraints (constraints d))
    (GetOk_string (retiring_principal d)) (grant_creation_tokens d).

(** The world once the remote has answered one [ListGrants] call. *)
Definition listed (input : ListGrantsInput)
           (rest : list (option ListGrantsResponse * option error))
           (w : World) : World :=
  mkWorld (createGrantResp w) rest (revokeGrantResp w)
          (calls w ++ [CallListGrants input]).



(** One [findKmsGrantById] lookup from the first page that does not find
    the grant, and one that finds it. *)
Definition lookupMisses (retries : nat) (deadlineError : error -> error)
           (keyId grantId : string) (w w1 : World) : Prop :=
  findKmsGrantById retries deadlineError keyId grantId None w
  = (Ret (None, Some (MissingError (grantMissingMessage grantId keyId))), w1).

Definition lookupFinds (retries : nat) (deadlineError : error -> error)
           (keyId grantId : string) (w w1 : World) : Prop :=
  exists g, findKmsGrantById retries deadlineError keyId grantId None w
            = (Ret (Some g, None), w1).

(** An attempt that [Retry] does not repeat: no error, or an error that the
    [ListGrants] closure classifies as non-retryable. *)
Definition terminalListGrants (err : option error) : Prop :=
  match err with
  | Some e => isListGrantsRetryable e = false
  | None => True
  end.

(** The output of a [ListGrants] call makes [findKmsGrantById] dereference
    a nil pointer: the output itself is nil, an entry scanned before any
    match has no grant id, or no entry matches and the truncation flag, or
    the marker of a truncated page, is nil. *)
Definition dereferencesNil (grantId : string) (out : option ListGrantsResponse)
  : Prop :=
  match out with
  | None => True
  | Some p =>
      getKmsGrantById (Grants p) grantId = Panic
      \/ (getKmsGrantById (Grants p) grantId = Ret None
          /\ (Truncated p = None
              \/ (Truncated p = Some true /\ NextMarker p = None)))
  end.

(** The same for the [CreateGrant] closure of Create. *)
Definition terminalCreateGrant (err : option error) : Prop :=
  match err with
  | Some e => isCreateGrantRetryable e = false
  | None => True
  end.

(** The resource data after [resourceAwsKmsGrantCreate] has stored what
    [CreateGrant] returned. *)
Definition createdData (grantId : string) (out : CreateGrantOutput)
           (d : ResourceData) : ResourceData :=
  Set_grant_token (default "" (out_GrantToken out))
    (Set_grant_id grantId (SetId grantId d)).

(** ** Sample data *)

Definition sampleGrant (id principal : string) : GrantListEntry :=
  mkGrantListEntry (Some id) (Some principal) None (Some "grant") ["Encrypt"] None.

Definition samplePage (grants : list GrantListEntry) (next : option string)
  : option ListGrantsResponse * option error :=
  (Some (mkListGrantsResponse grants (Some (bool_decide (is_Some next))) next), None).

Definition sampleRemote
           (created : list (option CreateGrantOutput * option error))
           (listed : list (option ListGrantsResponse * option error))
           (revoked : list (option error)) : World :=
  mkWorld created listed revoked [].

Definition sampleData : ResourceData :=
  mkResourceData "g1" "grant" "key" "arn:aws:iam::123:role/X" ["Encrypt"]
                 [mkConstraint (Some [("ctx", "prod")]) None] "" [] "g1" "token".

(** * Properties *)

(** ** The constraint hash *)

Section HasherFacts.
Implicit Types (m : StringMap) (k v sep : string).

Lemma collect_keys m (acc : list string) :
  fold_left (fun keys kv => keys ++ [kv.1]) m acc = acc ++ m.*1.
Proof.
  revert acc. induction m as [|[k v] m IH]; intros acc; simpl.
  - by rewrite app_nil_r.
  - rewrite IH. by rewrite <- app_assoc.
Qed.

Lemma collect_pairs m (keys acc : list string) :
  fold_left (fun strList key => strList ++ [key; default "" (mapIndex m key)])
            keys acc
  = acc ++ flat_map (fun key => [key; default "" (mapIndex m key)]) keys.
Proof.
  revert acc. induction keys as [|k keys IH]; intros acc; simpl.
  - by rewrite app_nil_r.
  - rewrite IH. by rewrite <- app_assoc.
Qed.

Lemma sortStringMapKeys_perm m : sortStringMapKeys m ≡ₚ m.*1.
Proof.
  unfold sortStringMapKeys, sort_Strings. rewrite collect_keys. simpl.
  apply merge_sort_Permutation.
Qed.

Lemma sortStringMapKeys_sorted m : Sorted String.le (sortStringMapKeys m).
Proof. unfold sortStringMapKeys, sort_Strings. apply (Sorted_merge_sort _). Qed.

Lemma sortStringMapKeys_order m m' :
  m ≡ₚ m' -> sortStringMapKeys m = sortStringMapKeys m'.
Proof.
  intros Hp. apply (Sorted_unique String.le); try apply sortStringMapKeys_sorted.
  rewrite !sortStringMapKeys_perm. by rewrite Hp.
Qed.

Lemma mapIndex_Some m k v :
  NoDup m.*1 -> mapIndex m k = Some v <-> (k, v) ∈ m.
Proof.
  induction m as [|[k' v'] m IH]; simpl; intros Hnd.
  - split; [done | by intros ?%elem_of_nil].
  - apply NoDup_cons in Hnd as [Hk' Hnd]. case_decide as Hk.
    + subst k'. split.
      * intros [= ->]. left.
      * intros [[= ->]|Hin]%elem_of_cons; [done|].
        exfalso. apply Hk'. apply list_elem_of_fmap. by exists (k, v).
    + rewrite (IH Hnd). split.
      * by right.
      * intros [[= -> ->]|Hin]%elem_of_cons; [done | done].
Qed.

Lemma mapIndex_order m m' k :
  NoDup m.*1 -> m ≡ₚ m' -> mapIndex m k = mapIndex m' k.
Proof.
  intros Hnd Hp.
  assert (Hnd' : NoDup m'.*1) by by rewrite <- Hp.
  apply option_eq. intros v.
  rewrite !mapIndex_Some by done. by rewrite Hp.
Qed.

(** The dereference [*m[key]] in [sortedConcatStringMap] never meets a
    missing key. *)
Lemma sortStringMapKeys_lookup m k :
  k ∈ sortStringMapKeys m -> is_Some (mapIndex m k).
Proof.
  rewrite sortStringMapKeys_perm. intros [[k' v] [-> Hin]]%list_elem_of_fmap.
  simpl. clear -Hin. induction m as [|[k1 v1] m IH]; [by apply elem_of_nil in Hin|].
  simpl. case_decide; [by eexists|].
  apply elem_of_cons in Hin as [[= -> ->]|Hin]; [done | by apply IH].
Qed.

Lemma sortedConcatStringMap_order m m' sep :
  NoDup m.*1 -> m ≡ₚ m' ->
  sortedConcatStringMap m sep = sortedConcatStringMap m' sep.
Proof.
  intros Hnd Hp. unfold sortedConcatStringMap. simpl.
  rewrite !collect_pairs, (sortStringMapKeys_order m m') by done. simpl.
  f_equal. apply flat_map_ext. intros k. by rewrite (mapIndex_order m m').
Qed.

Lemma sortedEntries_keys m : (sortedEntries m).*1 = sortStringMapKeys m.
Proof.
  unfold sortedEntries. rewrite <- list_fmap_compose.
  rewrite <- (list_fmap_id (sortStringMapKeys m)) at 2.
  by apply list_fmap_ext.
Qed.

Lemma sortedEntries_perm m : NoDup m.*1 -> sortedEntries m ≡ₚ m.
Proof.
  intros Hnd. apply NoDup_Permutation.
  - apply (NoDup_fmap_1 fst). rewrite sortedEntries_keys.
    by rewrite sortStringMapKeys_perm.
  - by apply (NoDup_fmap_1 fst).
  - intros [k v]. unfold sortedEntries. rewrite list_elem_of_fmap. split.
    + intros (k' & [= <- ->] & Hk).
      destruct (sortStringMapKeys_lookup m k Hk) as [v Hv].
      rewrite Hv. simpl. by apply mapIndex_Some.
    + intros Hin. exists k. split.
      * apply mapIndex_Some in Hin; [|done]. by rewrite Hin.
      * rewrite sortStringMapKeys_perm. apply list_elem_of_fmap. by exists (k, v).
Qed.

Lemma sortedConcatStringMap_entries m sep :
  sortedConcatStringMap m sep
  = strings_Join (flat_map (fun kv => [kv.1; kv.2]) (sortedEntries m)) sep.
Proof.
  unfold sortedConcatStringMap, sortedEntries. simpl. rewrite collect_pairs. simpl.
  f_equal. induction (sortStringMapKeys m) as [|k l IH]; simpl; [done|].
  by rewrite IH.
Qed.

Lemma constraintsHashBuffer_order (c c' : Constraint) :
  (forall m, encryption_context_equals c = Some m -> NoDup m.*1) ->
  (forall m, encryption_context_subset c = Some m -> NoDup m.*1) ->
  option_Forall2 Permutation (encryption_context_equals c)
                             (encryption_context_equals c') ->
  option_Forall2 Permutation (encryption_context_subset c)
                             (encryption_context_subset c') ->
  constraintsHashBuffer c = constraintsHashBuffer c'.
Proof.
  intros Hne Hns He Hs. unfold constraintsHashBuffer.
  destruct c as [e s], c' as [e' s']; simpl in *.
  destruct He as [me me' Hpe|]; destruct Hs as [ms ms' Hps|].
  all: try (rewrite <- (Permutation_length Hpe),
              <- (sortedConcatStringMap_order me me' "-") by eauto).
  all: try (rewrite <- (Permutation_length Hps),
              <- (sortedConcatStringMap_order ms ms' "-") by eauto).
  all: done.
Qed.

Lemma string_app_nil_r (s : string) : s +:+ "" = s.
Proof.
  induction s as [|a s IH]; [done|].
  change (String a s +:+ "") with (String a (s +:+ "")). by rewrite IH.
Qed.

Lemma string_app_assoc (s1 s2 s3 : string) :
  (s1 +:+ s2) +:+ s3 = s1 +:+ s2 +:+ s3.
Proof.
  induction s1 as [|a s1 IH]; [done|].
  change (String a (s1 +:+ s2) +:+ s3 = String a (s1 +:+ s2 +:+ s3)).
  change (String a ((s1 +:+ s2) +:+ s3) = String a (s1 +:+ s2 +:+ s3)).
  by rewrite IH.
Qed.

(** Two lists of entries of one map that visit the same keys in the same
    order are the same list. *)
Lemma listing_keys m (l1 l2 : list (string * string)) :
  NoDup m.*1 ->
  (forall kv, kv ∈ l1 -> kv ∈ m) -> (forall kv, kv ∈ l2 -> kv ∈ m) ->
  l1.*1 = l2.*1 -> l1 = l2.
Proof.
  intros Hnd. revert l2.
  induction l1 as [|[k1 v1] l1 IH]; intros [|[k2 v2] l2] H1 H2 Hk;
    simplify_eq/=; [done|].
  assert (Hin1 : (k2, v1) ∈ m) by (apply H1; left).
  assert (Hin2 : (k2, v2) ∈ m) by (apply H2; left).
  apply mapIndex_Some in Hin1, Hin2; [|done..].
  assert (v1 = v2) as -> by congruence. f_equal.
  apply IH; [| |done].
  - intros kv Hkv. apply H1. by right.
  - intros kv Hkv. apply H2. by right.
Qed.

Lemma sortedListing_sortedEntries m entries :
  NoDup m.*1 -> sortedListing (Some m) entries -> entries = sortedEntries m.
Proof.
  intros Hnd [Hp Hs]. simpl in Hp.
  apply (listing_keys m); [done| | |].
  - intros kv. by rewrite Hp.
  - intros kv. by rewrite (sortedEntries_perm m Hnd).
  - rewrite sortedEntries_keys.
    apply (Sorted_unique String.le); [done | apply sortStringMapKeys_sorted |].
    by rewrite sortStringMapKeys_perm, Hp.
Qed.

(** What one [if v, ok := m[kind]] block of the hash function appends to
    the buffer. *)
Lemma buffer_block (kind buf : string) (v : option StringMap) entries :
  (forall m, v = Some m -> NoDup m.*1) ->
  sortedListing v entries ->
  match v with
  | Some m =>
      if decide (0 < length m)
      then buf +:+ ((kind +:+ "-") +:+ sortedConcatStringMap m "-" +:+ "-")
      else buf
  | None => buf
  end
  = buf +:+ serializedVariant kind entries.
Proof.
  intros Hnd Hl. destruct v as [m|]; last first.
  { destruct Hl as [->%Permutation_nil_r _]. simpl. by rewrite string_app_nil_r. }
  destruct m as [|kv m].
  { destruct Hl as [->%Permutation_nil_r _]. simpl. by rewrite string_app_nil_r. }
  rewrite (sortedListing_sortedEntries _ _ (Hnd _ eq_refl) Hl).
  rewrite decide_True by (simpl; lia).
  rewrite sortedConcatStringMap_entries.
  pose proof (sortedEntries_perm _ (Hnd _ eq_refl)) as Hp.
  destruct (sortedEntries (kv :: m)) as [|e es] eqn:E.
  { by apply Permutation_nil_cons in Hp. }
  unfold serializedVariant. by rewrite string_app_assoc.
Qed.

Lemma constraintsHashBuffer_serialized (c : Constraint) es ss :
  (forall m, encryption_context_equals c = Some m -> NoDup m.*1) ->
  (forall m, encryption_context_subset c = Some m -> NoDup m.*1) ->
  sortedListing (encryption_context_equals c) es ->
  sortedListing (encryption_context_subset c) ss ->
  constraintsHashBuffer c
  = serializedVariant "encryption_context_equals" es
    +:+ serializedVariant "encryption_context_subset" ss.
Proof.
  intros Hne Hns Hes Hss. unfold constraintsHashBuffer. cbv zeta.
  etrans; [exact (buffer_block "encryption_context_subset" _ _ ss Hns Hss)|].
  f_equal.
  exact (buffer_block "encryption_context_equals" "" _ es Hne Hes).
Qed.
End HasherFacts.

(** C1.  The constraint fingerprint is deterministic and independent of the
    order of the map entries: two constraints whose [equals] mappings and
    whose [subset] mappings hold the same key/value pairs, in any order,
    get the same hash, whatever string hash is used.  The hash is the
    string hash of the serialization: the [equals] variant and then the
    [subset] variant, each written as its kind followed by its entries in
    ascending key order, and a variant whose mapping is empty (or absent)
    adds nothing to the text. *)
Theorem resourceKmsGrantConstraintsHash_order_independent
  (hashcode_String : string -> Z) (c c' : Constraint) :
  (forall m, encryption_context_equals c = Some m -> NoDup m.*1) ->
  (forall m, encryption_context_subset c = Some m -> NoDup m.*1) ->
  option_Forall2 Permutation (encryption_context_equals c)
                             (encryption_context_equals c') ->
  option_Forall2 Permutation (encryption_context_subset c)
                             (encryption_context_subset c') ->
  resourceKmsGrantConstraintsHash hashcode_String (Some c)
  = resourceKmsGrantConstraintsHash hashcode_String (Some c')
  /\ (forall es ss : list (string * string),
        sortedListing (encryption_context_equals c) es ->
        sortedListing (encryption_context_subset c) ss ->
        constraintsHashBuffer c
        = serializedVariant "encryption_context_equals" es
          +:+ serializedVariant "encryption_context_subset" ss
        /\ resourceKmsGrantConstraintsHash hashcode_String (Some c)
           = hashcode_String
               (serializedVariant "encryption_context_equals" es
                +:+ serializedVariant "encryption_context_subset" ss))
  /\ (forall (m : StringMap) (sep : string),
        NoDup m.*1 ->
        sortedEntries m ≡ₚ m
        /\ Sorted String.le (sortedEntries m).*1
        /\ sortedConcatStringMap m sep
           = strings_Join (flat_map (fun kv => [kv.1; kv.2]) (sortedEntries m)) sep)
  /\ (forall e s : option StringMap,
        constraintsHashBuffer (mkConstraint (Some []) s)
        = constraintsHashBuffer (mkConstraint None s)
        /\ constraintsHashBuffer (mkConstraint e (Some []))
           = constraintsHashBuffer (mkConstraint e None)).
Proof.
  intros Hne Hns He Hs. split; [|split; [|split]].
  - simpl. f_equal. by apply constraintsHashBuffer_order.
  - intros es ss Hes Hss.
    pose proof (constraintsHashBuffer_serialized c es ss Hne Hns Hes Hss) as Hbuf.
    split; [done|]. simpl. by rewrite Hbuf.
  - intros m sep Hnd. split; [by apply sortedEntries_perm|]. split.
    + rewrite sortedEntries_keys. apply sortStringMapKeys_sorted.
    + apply sortedConcatStringMap_entries.
  - intros e s. split; reflexivity.
Qed.

Lemma resourceKmsGrantConstraintsHash_order_independent_witness :
  resourceKmsGrantConstraintsHash crc32_hashcode
    (Some (mkConstraint (Some [("b", "2"); ("a", "1")]) (Some [])))
  = resourceKmsGrantConstraintsHash crc32_hashcode
      (Some (mkConstraint (Some [("a", "1"); ("b", "2")]) (Some [])))
  /\ constraintsHashBuffer (mkConstraint (Some [("b", "2"); ("a", "1")]) (Some []))
     = "encryption_context_equals-a-1-b-2-"
  /\ resourceKmsGrantConstraintsHash crc32_hashcode
       (Some (mkConstraint (Some [("b", "2"); ("a", "1")]) (Some [])))
     = crc32_hashcode "encryption_context_equals-a-1-b-2-".
Proof.
  destruct (resourceKmsGrantConstraintsHash_order_independent
              crc32_hashcode
              (mkConstraint (Some [("b", "2"); ("a", "1")]) (Some []))
              (mkConstraint (Some [("a", "1"); ("b", "2")]) (Some [])))
    as (Hsame & Htext & _); simpl.
  - intros m [= <-]. simpl. apply (bool_decide_unpack _). vm_compute. exact I.
  - intros m [= <-]. constructor.
  - constructor. apply perm_swap.
  - by constructor.
  - split; [exact Hsame|].
    apply (Htext [("a", "1"); ("b", "2")] []).
    + split; [apply perm_swap|]. apply (bool_decide_unpack _). vm_compute. exact I.
    + split; [reflexivity | constructor].
Defined.

Example crc32_check : crc32_ChecksumIEEE "123456789" = 0xCBF43926%Z.
Proof. vm_compute. reflexivity. Qed.

Example constraintsHashBuffer_sample :
  constraintsHashBuffer (mkConstraint (Some [("b", "2"); ("a", "1")]) (Some []))
  = "encryption_context_equals-a-1-b-2-".
Proof. vm_compute. reflexivity. Qed.

(** ** Constraint validation *)

Section ValidatorFacts.
Implicit Types (c : Constraint) (cs : list Constraint).

Lemma nonEmptyVariantCount_cons c cs :
  nonEmptyVariantCount (c :: cs)
  = nonEmptyVariantCount [c] + nonEmptyVariantCount cs.
Proof.
  unfold nonEmptyVariantCount. simpl. rewrite app_nil_r.
  by rewrite filter_app, length_app.
Qed.

Lemma nonEmptyVariantCount_app cs1 cs2 :
  nonEmptyVariantCount (cs1 ++ cs2)
  = nonEmptyVariantCount cs1 + nonEmptyVariantCount cs2.
Proof.
  unfold nonEmptyVariantCount. by rewrite bind_app, filter_app, length_app.
Qed.

Lemma constraintCount_loop cs (acc : nat) :
  fold_left
    (fun constraintCount data =>
       let constraintCount :=
         match encryption_context_equals data with
         | Some v => if decide (0 < length v) then constraintCount + 1
                     else constraintCount
         | None => constraintCount
         end in
       match encryption_context_subset data with
       | Some v => if decide (0 < length v) then constraintCount + 1
                   else constraintCount
       | None => constraintCount
       end)
    cs acc
  = acc + nonEmptyVariantCount cs.
Proof.
  revert acc. induction cs as [|[e s] cs IH]; intros acc.
  - simpl. unfold nonEmptyVariantCount. simpl. lia.
  - rewrite nonEmptyVariantCount_cons. simpl. rewrite IH.
    unfold nonEmptyVariantCount, variants. simpl.
    destruct e as [[|? ?]|], s as [[|? ?]|]; simpl;
      repeat (rewrite ?filter_cons, ?filter_nil; simpl; repeat case_decide);
      simpl in *; try done; try lia.
Qed.

Lemma kmsGrantConstraintsIsValid_count cs :
  kmsGrantConstraintsIsValid cs = true <-> nonEmptyVariantCount cs <= 1.
Proof.
  unfold kmsGrantConstraintsIsValid. rewrite constraintCount_loop. simpl.
  case_decide; split; intros; try done; lia.
Qed.

Lemma nonEmptyVariantCount_equals c m :
  encryption_context_equals c = Some m -> m <> [] ->
  1 <= length (filter (fun m : StringMap => m <> [])
                      (option_list (encryption_context_equals c))).
Proof. intros -> Hm. simpl. rewrite filter_cons. case_decide; simpl; [lia|done]. Qed.

Lemma nonEmptyVariantCount_subset c m :
  encryption_context_subset c = Some m -> m <> [] ->
  1 <= length (filter (fun m : StringMap => m <> [])
                      (option_list (encryption_context_subset c))).
Proof. intros -> Hm. simpl. rewrite filter_cons. case_decide; simpl; [lia|done]. Qed.

Lemma nonEmptyVariantCount_single c :
  nonEmptyVariantCount [c]
  = length (filter (fun m : StringMap => m <> [])
                   (option_list (encryption_context_equals c)))
    + length (filter (fun m : StringMap => m <> [])
                     (option_list (encryption_context_subset c))).
Proof.
  unfold nonEmptyVariantCount, variants. simpl. rewrite app_nil_r.
  by rewrite filter_app, length_app.
Qed.

(** A set that holds a non-empty [equals] mapping and a non-empty
    [subset] mapping, in one element or in two, counts at least two. *)
Lemma nonEmptyVariantCount_both cs c c' me ms :
  c ∈ cs -> c' ∈ cs ->
  encryption_context_equals c = Some me -> me <> [] ->
  encryption_context_subset c' = Some ms -> ms <> [] ->
  2 <= nonEmptyVariantCount cs.
Proof.
  intros Hc Hc' He Hme Hs Hms.
  pose proof (nonEmptyVariantCount_equals c me He Hme) as H1.
  pose proof (nonEmptyVariantCount_subset c' ms Hs Hms) as H2.
  apply list_elem_of_split in Hc as (l1 & l2 & ->).
  rewrite nonEmptyVariantCount_app, nonEmptyVariantCount_cons,
    nonEmptyVariantCount_single.
  apply elem_of_app in Hc' as [Hc'|Hc'].
  - apply list_elem_of_split in Hc' as (l3 & l4 & ->).
    rewrite nonEmptyVariantCount_app, nonEmptyVariantCount_cons,
      nonEmptyVariantCount_single. lia.
  - apply elem_of_cons in Hc' as [->|Hc'].
    + lia.
    + apply list_elem_of_split in Hc' as (l3 & l4 & ->).
      rewrite nonEmptyVariantCount_app, nonEmptyVariantCount_cons,
        nonEmptyVariantCount_single. lia.
Qed.
End ValidatorFacts.

(** ** The trace of remote calls only grows *)

Lemma extends_refl P w : extends P w w.
Proof. exists []. by rewrite app_nil_r. Qed.

Lemma extends_trans P w1 w2 w3 :
  extends P w1 w2 -> extends P w2 w3 -> extends P w1 w3.
Proof.
  intros (l1 & E1 & F1) (l2 & E2 & F2). exists (l1 ++ l2). split.
  - by rewrite E2, E1, app_assoc.
  - by apply Forall_app.
Qed.

Lemma bind_run {A B} (c : M A) (k : A -> M B) w a w1 :
  c w = (Ret a, w1) -> bind c k w = k a w1.
Proof. intros H. unfold bind. by rewrite H. Qed.

Lemma lift_run {A} (o : Outcome A) w o' w' :
  lift o w = (o', w') -> o = o' /\ w' = w.
Proof. by intros [= -> ->]. Qed.

Lemma bind_ext_run {A B} (c : M A) (k1 k2 : A -> M B) w :
  (forall a w1, c w = (Ret a, w1) -> k1 a w1 = k2 a w1) ->
  bind c k1 w = bind c k2 w.
Proof. intros H. unfold bind. destruct (c w) as [[a| |] w1]; auto. Qed.

Lemma preserves_ret P {A} (a : A) : preserves P (ret a).
Proof. intros w o w' [= <- <-]. apply extends_refl. Qed.

Lemma preserves_lift P {A} (o : Outcome A) : preserves P (lift o).
Proof. intros w o' w' [= <- <-]. apply extends_refl. Qed.

Lemma preserves_bind P {A B} (c : M A) (k : A -> M B) :
  preserves P c -> (forall a, preserves P (k a)) -> preserves P (bind c k).
Proof.
  intros Hc Hk w o w' H. unfold bind in H.
  destruct (c w) as [[a| |] w1] eqn:E; apply Hc in E.
  - eapply extends_trans; [done|]. by eapply Hk.
  - by injection H as <- <-.
  - by injection H as <- <-.
Qed.

Lemma preserves_CreateGrant (P : Call -> Prop) input :
  P (CallCreateGrant input) -> preserves P (CreateGrant input).
Proof.
  intros HP w o w' H. unfold CreateGrant in H. simpl in H.
  exists [CallCreateGrant input]. split; [|by constructor].
  by destruct (createGrantResp w); injection H as <- <-.
Qed.

Lemma preserves_ListGrants (P : Call -> Prop) input :
  P (CallListGrants input) -> preserves P (ListGrants input).
Proof.
  intros HP w o w' H. unfold ListGrants in H. simpl in H.
  exists [CallListGrants input]. split; [|by constructor].
  by destruct (listGrantsResp w); injection H as <- <-.
Qed.

Lemma preserves_RevokeGrant (P : Call -> Prop) input :
  P (CallRevokeGrant input) -> preserves P (RevokeGrant input).
Proof.
  intros HP w o w' H. unfold RevokeGrant in H. simpl in H.
  exists [CallRevokeGrant input]. split; [|by constructor].
  by destruct (revokeGrantResp w); injection H as <- <-.
Qed.

Section RetryFacts.
Variable deadlineError : error -> error.
Context {A : Type}.
Implicit Types (f : M (A * option RetryError)) (w : World).

Lemma Retry_loop_unfold n f :
  Retry_loop deadlineError n f
  = (let* (a, rerr) := f in
     match rerr with
     | None => ret (a, None)
     | Some rerr =>
         if Retryable rerr
         then match n with
              | O => ret (a, deadlineError <$> Err rerr)
              | S n' => Retry_loop deadlineError n' f
              end
         else ret (a, Err rerr)
     end).
Proof. by destruct n. Qed.

Lemma Retry_loop_success n f w a w1 :
  f w = (Ret (a, None), w1) ->
  Retry_loop deadlineError n f w = (Ret (a, None), w1).
Proof. intros H. rewrite Retry_loop_unfold. unfold bind. by rewrite H. Qed.

Lemma Retry_loop_fatal n f w a e w1 :
  f w = (Ret (a, Some (NonRetryableError e)), w1) ->
  Retry_loop deadlineError n f w = (Ret (a, e), w1).
Proof. intros H. rewrite Retry_loop_unfold. unfold bind. by rewrite H. Qed.

Lemma Retry_loop_again n f w a e w1 :
  f w = (Ret (a, Some (RetryableError e)), w1) ->
  Retry_loop deadlineError (S n) f w = Retry_loop deadlineError n f w1.
Proof. intros H. rewrite Retry_loop_unfold. unfold bind. by rewrite H. Qed.

Lemma Retry_loop_deadline f w a e w1 :
  f w = (Ret (a, Some (RetryableError e)), w1) ->
  Retry_loop deadlineError 0 f w = (Ret (a, Some (deadlineError e)), w1).
Proof. intros H. rewrite Retry_loop_unfold. unfold bind. by rewrite H. Qed.

Lemma Retry_loop_panic n f w w1 :
  f w = (Panic, w1) -> Retry_loop deadlineError n f w = (Panic, w1).
Proof. intros H. rewrite Retry_loop_unfold. unfold bind. by rewrite H. Qed.

Lemma Retry_loop_blocked n f w w1 :
  f w = (Blocked, w1) -> Retry_loop deadlineError n f w = (Blocked, w1).
Proof. intros H. rewrite Retry_loop_unfold. unfold bind. by rewrite H. Qed.

Lemma preserves_Retry_loop P n f :
  preserves P f -> preserves P (Retry_loop deadlineError n f).
Proof.
  intros Hf. induction n as [|n IH]; rewrite Retry_loop_unfold;
    (apply preserves_bind; [done|]); intros [a [[e r]|]]; simpl;
    try destruct r; auto using preserves_ret.
Qed.

End RetryFacts.

Ltac preserves_step :=
  match goal with
  | |- preserves _ (bind _ _) => apply preserves_bind; [|intros ?]
  | |- preserves _ (ret _) => apply preserves_ret
  | |- preserves _ (lift _) => apply preserves_lift
  | |- preserves _ (Retry _ _ _) => apply preserves_Retry_loop
  | |- preserves _ (Retry_loop _ _ _) => apply preserves_Retry_loop
  | |- preserves _ (match ?x with _ => _ end) => destruct x
  end.

(** ** The paginated finder *)

Section FinderFacts.
Variable retries : nat.
Variable deadlineError : error -> error.
Implicit Types (w : World) (keyId grantId : string) (marker : option string).

(** The closure that [findKmsGrantById] hands to [Retry]. *)
Local Abbreviation listGrantsAttempt input :=
  (let* (out, err) := ListGrants input in
   match err with
   | Some e =>
       if isListGrantsRetryable e
       then ret (out, Some (RetryableError e))
       else ret (out, Some (NonRetryableError (Some e)))
   | None => ret (out, None)
   end).

Lemma ListGrants_response input w r rest :
  listGrantsResp w = r :: rest ->
  ListGrants input w = (Ret r, listed input rest w).
Proof. intros H. unfold ListGrants. simpl. by rewrite H. Qed.

Lemma ListGrants_page n input w p rest :
  listGrantsResp w = (Some p, None) :: rest ->
  Retry_loop deadlineError n (listGrantsAttempt input) w
  = (Ret (Some p, None), listed input rest w).
Proof.
  intros H. apply Retry_loop_success. unfold bind.
  by rewrite (ListGrants_response _ _ _ _ H).
Qed.

Lemma listGrantsAttempt_consumes input w x w' :
  listGrantsAttempt input w = (Ret x, w') ->
  length (listGrantsResp w') < length (listGrantsResp w).
Proof.
  unfold bind, ListGrants. simpl.
  destruct (listGrantsResp w) as [|[out [e|]] rest]; simpl; [done|..].
  - destruct (isListGrantsRetryable e); intros [= <- <-]; simpl; lia.
  - intros [= <- <-]; simpl; lia.
Qed.

Lemma ListGrants_retry_consumes n input w x w' :
  Retry_loop deadlineError n (listGrantsAttempt input) w = (Ret x, w') ->
  length (listGrantsResp w') < length (listGrantsResp w).
Proof.
  revert w. induction n as [|n IH]; intros w; rewrite Retry_loop_unfold;
    unfold bind at 1;
    destruct (listGrantsAttempt input w) as [[[a [[e r]|]]| |] w1] eqn:E;
    try done; apply listGrantsAttempt_consumes in E; simpl;
    try destruct r; try (intros [= <- <-]; lia).
  intros H%IH. lia.
Qed.

Lemma findKmsGrantById_pages_unfold fuel keyId grantId marker :
  findKmsGrantById_pages retries deadlineError (S fuel) keyId grantId marker
  = (let input := mkListGrantsInput keyId 100 marker in
     let* (out, err) := Retry_loop deadlineError retries (listGrantsAttempt input) in
     let* out := lift (deref out) in
     let* grant := lift (getKmsGrantById (Grants out) grantId) in
     match grant with
     | Some grant => ret (Some grant, None)
     | None =>
         let* truncated := lift (deref (Truncated out)) in
         if truncated : bool
         then
           let* _ := lift (deref (NextMarker out)) in
           findKmsGrantById_pages retries deadlineError fuel keyId grantId
                                  (NextMarker out)
         else
           ret (None,
                Some (MissingError
                        (NewKmsGrantMissingError
                           (grantMissingMessage grantId keyId))))
     end).
Proof. reflexivity. Qed.

Lemma findKmsGrantById_pages_found fuel keyId grantId marker w p rest g :
  listGrantsResp w = (Some p, None) :: rest ->
  getKmsGrantById (Grants p) grantId = Ret (Some g) ->
  findKmsGrantById_pages retries deadlineError (S fuel) keyId grantId marker w
  = (Ret (Some g, None), listed (mkListGrantsInput keyId 100 marker) rest w).
Proof.
  intros Hw Hg. rewrite findKmsGrantById_pages_unfold. simpl. unfold bind at 1.
  rewrite (ListGrants_page _ _ _ _ _ Hw). unfold bind, lift. simpl.
  by rewrite Hg.
Qed.


Lemma findKmsGrantById_pages_missing fuel keyId grantId marker w p rest :
  listGrantsResp w = (Some p, None) :: rest ->
  getKmsGrantById (Grants p) grantId = Ret None ->
  Truncated p = Some false ->
  findKmsGrantById_pages retries deadlineError (S fuel) keyId grantId marker w
  = (Ret (None, Some (MissingError (grantMissingMessage grantId keyId))),
     listed (mkListGrantsInput keyId 100 marker) rest w).
Proof.
  intros Hw Hg Ht. rewrite findKmsGrantById_pages_unfold. simpl.
  unfold bind at 1. rewrite (ListGrants_page _ _ _ _ _ Hw).
  unfold bind, lift. simpl. by rewrite Hg, Ht.
Qed.

(** More fuel than the remote has responses left is never used up: the
    result does not depend on it. *)
Lemma findKmsGrantById_pages_fuel fuel1 fuel2 keyId grantId marker w :
  length (listGrantsResp w) < fuel1 -> length (listGrantsResp w) < fuel2 ->
  findKmsGrantById_pages retries deadlineError fuel1 keyId grantId marker w
  = findKmsGrantById_pages retries deadlineError fuel2 keyId grantId marker w.
Proof.
  revert fuel2 marker w. induction fuel1 as [|fuel1 IH]; intros fuel2 marker w H1 H2;
    [lia|]. destruct fuel2 as [|fuel2]; [lia|].
  rewrite !findKmsGrantById_pages_unfold. simpl.
  apply bind_ext_run. intros [out err] w1 E%ListGrants_retry_consumes.
  apply bind_ext_run. intros out' w2 [_ ->]%lift_run.
  apply bind_ext_run. intros [g|] w3 [_ ->]%lift_run; [done|].
  apply bind_ext_run. intros [|] w4 [_ ->]%lift_run; [|done].
  apply bind_ext_run. intros _ w5 [_ ->]%lift_run.
  apply IH; lia.
Qed.

Lemma findKmsGrantById_fuel fuel keyId grantId marker w :
  length (listGrantsResp w) < fuel ->
  findKmsGrantById_pages retries deadlineError fuel keyId grantId marker w
  = findKmsGrantById retries deadlineError keyId grantId marker w.
Proof. intros H. unfold findKmsGrantById. apply findKmsGrantById_pages_fuel; lia. Qed.

(** The finder hands back a grant and no error, or no grant and the
    missing-grant error; nothing else. *)
Lemma findKmsGrantById_pages_result fuel keyId grantId marker w grant err w' :
  findKmsGrantById_pages retries deadlineError fuel keyId grantId marker w
  = (Ret (grant, err), w') ->
  (is_Some grant /\ err = None)
  \/ (grant = None
      /\ err = Some (MissingError (grantMissingMessage grantId keyId))).
Proof.
  revert marker w. induction fuel as [|fuel IH]; intros marker w; [done|].
  rewrite findKmsGrantById_pages_unfold. simpl. unfold bind at 1.
  destruct (Retry_loop _ _ _ w) as [[[out e]| |] w1]; try done.
  unfold bind, lift. destruct out as [out|]; simpl; [|done].
  destruct (getKmsGrantById _ _) as [[g|]| |]; try done.
  - intros [= <- <- <-]. left. eauto.
  - destruct (Truncated out) as [[|]|]; simpl; try done.
    + destruct (NextMarker out); simpl; [|done]. apply IH.
    + intros [= <- <- <-]. by right.
Qed.

Lemma findKmsGrantById_result keyId grantId marker w grant err w' :
  findKmsGrantById retries deadlineError keyId grantId marker w
  = (Ret (grant, err), w') ->
  (is_Some grant /\ err = None)
  \/ (grant = None
      /\ err = Some (MissingError (grantMissingMessage grantId keyId))).
Proof. apply findKmsGrantById_pages_result. Qed.

Section Trace.
Variable P : Call -> Prop.
Hypothesis P_ListGrants : forall input, P (CallListGrants input).

Lemma preserves_findKmsGrantById_pages fuel keyId grantId marker :
  preserves P
    (findKmsGrantById_pages retries deadlineError fuel keyId grantId marker).
Proof.
  revert marker. induction fuel as [|fuel IH]; intros marker.
  - intros w o w' [= <- <-]. apply extends_refl.
  - rewrite findKmsGrantById_pages_unfold. simpl.
    repeat (preserves_step; auto using preserves_ListGrants).
Qed.

Lemma preserves_findKmsGrantById keyId grantId marker :
  preserves P (findKmsGrantById retries deadlineError keyId grantId marker).
Proof. intros w o w'. apply preserves_findKmsGrantById_pages. Qed.

Lemma preserves_findKmsGrantByIdWithRetry keyId grantId :
  preserves P (findKmsGrantByIdWithRetry retries deadlineError keyId grantId).
Proof.
  unfold findKmsGrantByIdWithRetry.
  repeat (preserves_step; auto using preserves_findKmsGrantById).
Qed.

Lemma preserves_waitForKmsGrantToBeRevoked keyId grantId :
  preserves P (waitForKmsGrantToBeRevoked retries deadlineError keyId grantId).
Proof.
  unfold waitForKmsGrantToBeRevoked.
  repeat (preserves_step; auto using preserves_findKmsGrantById).
Qed.

Lemma preserves_resourceAwsKmsGrantRead d :
  preserves P (resourceAwsKmsGrantRead retries deadlineError d).
Proof.
  unfold resourceAwsKmsGrantRead.
  repeat (preserves_step; auto using preserves_findKmsGrantByIdWithRetry).
Qed.
End Trace.
End FinderFacts.

(** ** Create *)

Lemma begins_bind call {A B} (c : M A) (k : A -> M B) :
  begins call c -> (forall a, preserves (fun _ => True) (k a)) ->
  begins call (bind c k).
Proof.
  intros Hc Hk w o w' H. unfold bind in H.
  destruct (c w) as [[a| |] w1] eqn:E; apply Hc in E as [l E].
  - apply Hk in H as (l' & H & _). exists (l ++ l').
    by rewrite H, E, <- app_assoc.
  - injection H as <- <-. by exists l.
  - injection H as <- <-. by exists l.
Qed.

Lemma begins_CreateGrant input : begins (CallCreateGrant input) (CreateGrant input).
Proof.
  intros w o w' H. unfold CreateGrant in H. simpl in H. exists [].
  by destruct (createGrantResp w); injection H as <- <-.
Qed.

Section CreateFacts.
Variable retries : nat.
Variable deadlineError : error -> error.
Implicit Types (w : World) (d : ResourceData).

(** The closure that [resourceAwsKmsGrantCreate] hands to [Retry]. *)
Local Abbreviation createGrantAttempt input :=
  (let* (out, err) := CreateGrant input in
   match err with
   | Some err =>
       if isCreateGrantRetryable err
       then ret (out,
                 Some (RetryableError
                         (Errorf "[WARN] Error adding new KMS Grant for key: %s, retrying %s"
                                 [ArgString (cg_KeyId input); ArgError err])))
       else ret (out, Some (NonRetryableError (Some err)))
   | None => ret (out, None)
   end).

(** What [resourceAwsKmsGrantCreate] does once [Retry] has returned. *)
Local Abbreviation created d :=
  (fun r : option CreateGrantOutput * option error =>
     let (out, err) := r in
     match err with
     | Some err => ret (Some err, d)
     | None =>
         let* out := lift (deref out) in
         let* grantId := lift (deref (out_GrantId out)) in
         let d := SetId grantId d in
         let d := Set_grant_id grantId d in
         let d := Set_grant_token (default "" (out_GrantToken out)) d in
         resourceAwsKmsGrantRead retries deadlineError d
     end).

Lemma resourceAwsKmsGrantCreate_invalid d w :
  kmsGrantConstraintsIsValid (constraints d) = false ->
  resourceAwsKmsGrantCreate retries deadlineError d w
  = (Ret (Some errConstraintsConflict, d), w).
Proof.
  intros H. unfold resourceAwsKmsGrantCreate.
  destruct (constraints d) as [|c cs]; [done|]. simpl. by rewrite H.
Qed.

Lemma resourceAwsKmsGrantCreate_valid d w :
  kmsGrantConstraintsIsValid (constraints d) = true ->
  resourceAwsKmsGrantCreate retries deadlineError d w
  = bind (Retry_loop deadlineError retries
            (createGrantAttempt (createGrantRequest d)))
         (created d) w.
Proof.
  intros H. unfold resourceAwsKmsGrantCreate, createGrantRequest.
  destruct (constraints d) as [|c cs]; simpl; [|rewrite H; simpl].
  all: by destruct (grant_creation_tokens d),
            (GetOk_string (retiring_principal d)), (GetOk_string (name d)).
Qed.

Lemma preserves_created d :
  forall r, preserves (fun _ => True) (created d r).
Proof.
  intros [out [e|]]; repeat (preserves_step; auto using preserves_resourceAwsKmsGrantRead).
Qed.

Lemma preserves_createGrantAttempt input :
  preserves (fun _ => True) (createGrantAttempt input).
Proof. repeat (preserves_step; auto using preserves_CreateGrant). Qed.

Lemma begins_createGrant_retry n input d :
  begins (CallCreateGrant input)
         (bind (Retry_loop deadlineError n (createGrantAttempt input)) (created d)).
Proof.
  apply begins_bind; [|apply preserves_created].
  rewrite Retry_loop_unfold. apply begins_bind.
  - apply begins_bind; [apply begins_CreateGrant|].
    intros [out [e|]]; repeat preserves_step.
  - intros [a [[e r]|]]; simpl; try destruct r; try destruct n;
      auto using preserves_ret, preserves_Retry_loop, preserves_createGrantAttempt.
Qed.

Lemma CreateGrant_response input w r rest :
  createGrantResp w = r :: rest ->
  CreateGrant input w
  = (Ret r, mkWorld rest (listGrantsResp w) (revokeGrantResp w)
                    (calls w ++ [CallCreateGrant input])).
Proof. intros H. unfold CreateGrant. simpl. by rewrite H. Qed.
End CreateFacts.

(** C2.  A constraint set is valid exactly when at most one variant in the
    whole set has a non-empty mapping: a set with a non-empty [equals]
    mapping and a non-empty [subset] mapping is invalid, a non-empty
    [equals] mapping next to an empty [subset] mapping is valid.  Create
    returns the validation error, with no call made on the remote, exactly
    when the constraint set it is given is invalid. *)
Theorem kmsGrantConstraints_validation (retries : nat) (deadlineError : error -> error) :
  (forall cs, kmsGrantConstraintsIsValid cs = true <-> nonEmptyVariantCount cs <= 1)
  /\ (forall cs c c' me ms,
        c ∈ cs -> c' ∈ cs ->
        encryption_context_equals c = Some me -> me <> [] ->
        encryption_context_subset c' = Some ms -> ms <> [] ->
        kmsGrantConstraintsIsValid cs = false)
  /\ (forall me, kmsGrantConstraintsIsValid [mkConstraint (Some me) (Some [])] = true)
  /\ (forall d w,
        resourceAwsKmsGrantCreate retries deadlineError d w
        = (Ret (Some errConstraintsConflict, d), w)
        <-> kmsGrantConstraintsIsValid (constraints d) = false).
Proof.
  split; [apply kmsGrantConstraintsIsValid_count|]. split; [|split].
  - intros cs c c' me ms Hc Hc' He Hme Hs Hms.
    pose proof (nonEmptyVariantCount_both cs c c' me ms Hc Hc' He Hme Hs Hms).
    apply not_true_is_false. rewrite kmsGrantConstraintsIsValid_count. lia.
  - intros me. apply kmsGrantConstraintsIsValid_count.
    rewrite nonEmptyVariantCount_single. simpl.
    rewrite filter_cons, filter_nil. repeat case_decide; simpl; try done; lia.
  - intros d w. split; [|apply resourceAwsKmsGrantCreate_invalid].
    intros H. apply not_true_is_false. intros Hv.
    rewrite (resourceAwsKmsGrantCreate_valid retries deadlineError d w Hv) in H.
    apply begins_createGrant_retry in H as [l H].
    apply (f_equal length) in H. rewrite length_app in H. simpl in H. lia.
Qed.

(** ** Pagination *)

Section Pagination.
Variable retries : nat.
Variable deadlineError : error -> error.
Variables (keyId grantId : string).

End Pagination.



(** C4.  During Create a failed [CreateGrant] call is retryable exactly
    when the error is an AWS error whose code is
    [DependencyTimeoutException], [InternalException] or
    [InvalidArnException].  Any other error goes straight back to the
    caller after that one call; a retryable one is followed by a further
    [CreateGrant] call with the same request while the retry budget
    lasts, and is reported as the deadline error once it is used up. *)
Theorem createGrant_retry_classification
  (retries : nat) (deadlineError : error -> error)
  (d : ResourceData) (w : World) (out : option CreateGrantOutput) (e : error)
  (rest : list (option CreateGrantOutput * option error)) :
  kmsGrantConstraintsIsValid (constraints d) = true ->
  createGrantResp w = (out, Some e) :: rest ->
  let request := CallCreateGrant (createGrantRequest d) in
  let w1 := mkWorld rest (listGrantsResp w) (revokeGrantResp w)
                    (calls w ++ [request]) in
  (isCreateGrantRetryable e = true
   <-> exists code message,
        e = AwsError code message
        /\ (code = "DependencyTimeoutException"
            \/ code = "InternalException"
            \/ code = "InvalidArnException"))
  /\ (isCreateGrantRetryable e = false ->
      resourceAwsKmsGrantCreate retries deadlineError d w = (Ret (Some e, d), w1))
  /\ (isCreateGrantRetryable e = true -> retries = 0 ->
      resourceAwsKmsGrantCreate retries deadlineError d w
      = (Ret (Some (deadlineError
                      (Errorf "[WARN] Error adding new KMS Grant for key: %s, retrying %s"
                              [ArgString (key_id d); ArgError e])), d), w1))
  /\ (isCreateGrantRetryable e = true -> 0 < retries ->
      exists o w' l,
        resourceAwsKmsGrantCreate retries deadlineError d w = (o, w')
        /\ calls w' = calls w ++ request :: request :: l).
Proof.
  intros Hv Hw request w1. split; [|split; [|split]].
  - destruct e as [code message| |]; simpl; [|split; [done | by intros (?&?&?&?)]..].
    rewrite !orb_true_iff, !bool_decide_eq_true. split.
    + intros H. exists code, message. split; [done | tauto].
    + intros (? & ? & [= <- <-] & H). tauto.
  - intros Hr. rewrite (resourceAwsKmsGrantCreate_valid _ _ _ _ Hv).
    erewrite bind_run; last first.
    { apply Retry_loop_fatal.
      erewrite bind_run; [|by apply CreateGrant_response]. simpl. by rewrite Hr. }
    reflexivity.
  - intros Hr ->. rewrite (resourceAwsKmsGrantCreate_valid _ _ _ _ Hv).
    erewrite bind_run; last first.
    { apply Retry_loop_deadline.
      erewrite bind_run; [|by apply CreateGrant_response]. simpl. by rewrite Hr. }
    reflexivity.
  - intros Hr Hn. destruct retries as [|n]; [lia|].
    rewrite (resourceAwsKmsGrantCreate_valid _ _ _ _ Hv).
    destruct (bind _ _ w) as [o w'] eqn:Hrun. exists o, w'.
    unfold bind at 1 in Hrun. erewrite Retry_loop_again in Hrun; last first.
    { erewrite bind_run; [|by apply CreateGrant_response]. simpl. by rewrite Hr. }
    apply (begins_createGrant_retry (S n) deadlineError n
             (createGrantRequest d) d) in Hrun as [l Hl].
    exists l. split; [done|]. rewrite Hl. simpl. by rewrite <- app_assoc.
Qed.

Lemma createGrant_retry_classification_witness :
  resourceAwsKmsGrantCreate 3 id sampleData
    (sampleRemote [(None, Some (AwsError "AccessDeniedException" "denied"))] [] [])
  = (Ret (Some (AwsError "AccessDeniedException" "denied"), sampleData),
     mkWorld [] [] []
       [CallCreateGrant
          (mkCreateGrantInput "arn:aws:iam::123:role/X" "key" ["Encrypt"]
             (Some "grant")
             (Some (mkGrantConstraints (Some [("ctx", "prod")]) None))
             None [])]).
Proof.
  exact (proj1 (proj2 (createGrant_retry_classification 3 id sampleData
           (sampleRemote [(None, Some (AwsError "AccessDeniedException" "denied"))] [] [])
           None (AwsError "AccessDeniedException" "denied") []
           eq_refl eq_refl)) eq_refl).
Defined.

(** A retryable failure is followed by a second [CreateGrant] call; the
    grant is then read back. *)
Example resourceAwsKmsGrantCreate_retry_sample :
  resourceAwsKmsGrantCreate 3 id sampleData
    (sampleRemote
       [(None, Some (AwsError "InvalidArnException" "role not found"));
        (Some (mkCreateGrantOutput (Some "abc123") (Some "tok")), None)]
       [samplePage [sampleGrant "abc123" "arn:aws:iam::123:role/X"] None] [])
  = (Ret (None, Set_grant_token "tok" (Set_grant_id "abc123" (SetId "abc123" sampleData))),
     mkWorld [] [] []
       [CallCreateGrant (createGrantRequest sampleData);
        CallCreateGrant (createGrantRequest sampleData);
        CallListGrants (mkListGrantsInput "key" 100 None)]).
Proof. vm_compute. reflexivity. Qed.

(** ** Lookups under [Retry] *)

Section LookupFacts.
Variable retries : nat.
Variable deadlineError : error -> error.
Variables (keyId grantId : string).
Implicit Types (w : World).

Local Abbreviation misses := (lookupMisses retries deadlineError keyId grantId).
Local Abbreviation finds := (lookupFinds retries deadlineError keyId grantId).

(** The closure of [findKmsGrantByIdWithRetry]. *)
Local Abbreviation lookupAttempt :=
  (let* (grant, err) := findKmsGrantById retries deadlineError keyId grantId None in
   match err with
   | Some err =>
       match err with
       | MissingError serr =>
           ret (grant, Some (RetryableError (MissingError serr)))
       | _ => ret (grant, Some (NonRetryableError (Some err)))
       end
   | None => ret (grant, None)
   end).

(** The closure of [waitForKmsGrantToBeRevoked]. *)
Local Abbreviation revokedAttempt :=
  (let* (grant, err) := findKmsGrantById retries deadlineError keyId grantId None in
   match err with
   | Some (MissingError _) => ret (tt, None)
   | _ =>
       match grant with
       | Some grant =>
           let* id := lift (deref (GrantId grant)) in
           ret (tt,
                Some (RetryableError
                        (Errorf "[DEBUG] Grant still exists while expected to be revoked, retyring revocation check: %s"
                                [ArgString id])))
       | None => ret (tt, Some (NonRetryableError err))
       end
   end).

Lemma getKmsGrantById_GrantId grants g :
  getKmsGrantById grants grantId = Ret (Some g) -> GrantId g = Some grantId.
Proof.
  induction grants as [|g' grants IH]; simpl; [done|].
  destruct (GrantId g') as [i|] eqn:E; simpl; [|done].
  case_decide as Hi; [|done]. intros [= <-]. by rewrite E, Hi.
Qed.

Lemma findKmsGrantById_pages_GrantId fuel marker w g err w' :
  findKmsGrantById_pages retries deadlineError fuel keyId grantId marker w
  = (Ret (Some g, err), w') ->
  GrantId g = Some grantId.
Proof.
  revert marker w. induction fuel as [|fuel IH]; intros marker w; [done|].
  rewrite findKmsGrantById_pages_unfold. simpl. unfold bind at 1.
  destruct (Retry_loop _ _ _ w) as [[[out e]| |] w1]; try done.
  unfold bind, lift. destruct out as [out|]; simpl; [|done].
  destruct (getKmsGrantById _ _) as [[g'|]| |] eqn:Hg; try done.
  - intros [= <- <- <-]. by eapply getKmsGrantById_GrantId.
  - destruct (Truncated out) as [[|]|]; simpl; try done.
    destruct (NextMarker out); simpl; [|done]. apply IH.
Qed.

Lemma lookupAttempt_misses w w1 :
  misses w w1 ->
  lookupAttempt w
  = (Ret (None,
          Some (RetryableError (MissingError (grantMissingMessage grantId keyId)))),
     w1).
Proof. intros H. by rewrite (bind_run _ _ _ _ _ H). Qed.

Lemma lookupAttempt_finds w w1 g :
  findKmsGrantById retries deadlineError keyId grantId None w
  = (Ret (Some g, None), w1) ->
  lookupAttempt w = (Ret (Some g, None), w1).
Proof. intros H. by rewrite (bind_run _ _ _ _ _ H). Qed.

Lemma revokedAttempt_misses w w1 :
  misses w w1 -> revokedAttempt w = (Ret (tt, None), w1).
Proof. intros H. by rewrite (bind_run _ _ _ _ _ H). Qed.

Lemma revokedAttempt_finds w w1 :
  finds w w1 ->
  revokedAttempt w
  = (Ret (tt,
          Some (RetryableError
                  (Errorf "[DEBUG] Grant still exists while expected to be revoked, retyring revocation check: %s"
                          [ArgString grantId]))),
     w1).
Proof.
  intros [g H]. rewrite (bind_run _ _ _ _ _ H). simpl.
  apply findKmsGrantById_pages_GrantId in H. by rewrite H.
Qed.

(** Attempts that fail with a retryable error are repeated while the
    budget lasts. *)
Lemma Retry_loop_repeat {A} (f : M (A * option RetryError))
      (again : World -> World -> Prop) k n w w1 :
  (forall w w1, again w w1 ->
                exists a e, f w = (Ret (a, Some (RetryableError e)), w1)) ->
  nsteps again k w w1 ->
  Retry_loop deadlineError (k + n) f w = Retry_loop deadlineError n f w1.
Proof.
  intros Hagain Hk. induction Hk as [|k w w1 w2 H _ IH]; [done|].
  destruct (Hagain _ _ H) as (a & e & E). rewrite Nat.add_succ_l.
  by rewrite (Retry_loop_again _ _ _ _ _ _ _ E).
Qed.

Lemma Retry_loop_exhaust {A} (f : M (A * option RetryError))
      (again : World -> World -> Prop) (a : A) (e : error) n w w1 :
  (forall w w1, again w w1 -> f w = (Ret (a, Some (RetryableError e)), w1)) ->
  nsteps again (S n) w w1 ->
  Retry_loop deadlineError n f w = (Ret (a, Some (deadlineError e)), w1).
Proof.
  intros Hagain Hk. apply nsteps_inv_r in Hk as (w' & Hk & Hlast).
  rewrite <- (Nat.add_0_r n).
  rewrite (Retry_loop_repeat f again n 0 w w') by eauto.
  apply Retry_loop_deadline. by apply Hagain.
Qed.

Lemma findKmsGrantByIdWithRetry_found k w w1 w2 g :
  nsteps misses k w w1 -> k <= retries ->
  findKmsGrantById retries deadlineError keyId grantId None w1
  = (Ret (Some g, None), w2) ->
  findKmsGrantByIdWithRetry retries deadlineError keyId grantId w
  = (Ret (Some g, None), w2).
Proof.
  intros Hk Hle Hg. unfold findKmsGrantByIdWithRetry, Retry.
  replace retries with (k + (retries - k)) at 1 by lia.
  rewrite (Retry_loop_repeat _ misses k _ w w1);
    [|eauto using lookupAttempt_misses | done].
  apply Retry_loop_success. by apply lookupAttempt_finds.
Qed.

Lemma findKmsGrantByIdWithRetry_deadline w w1 :
  nsteps misses (S retries) w w1 ->
  findKmsGrantByIdWithRetry retries deadlineError keyId grantId w
  = (Ret (None,
          Some (deadlineError (MissingError (grantMissingMessage grantId keyId)))),
     w1).
Proof.
  intros Hk. unfold findKmsGrantByIdWithRetry, Retry.
  apply (Retry_loop_exhaust _ misses); [|done].
  apply lookupAttempt_misses.
Qed.

(** The retried lookup ends with a grant or with an error, never with
    neither. *)
Lemma findKmsGrantByIdWithRetry_result w grant err w' :
  findKmsGrantByIdWithRetry retries deadlineError keyId grantId w
  = (Ret (grant, err), w') ->
  (is_Some grant /\ err = None) \/ (grant = None /\ is_Some err).
Proof.
  unfold findKmsGrantByIdWithRetry, Retry. generalize retries at 1 as n.
  intros n. revert w. induction n as [|n IH]; intros w;
    rewrite Retry_loop_unfold; unfold bind at 1;
    destruct (lookupAttempt w) as [[[g r]| |] w1] eqn:E; try done;
    unfold bind in E;
    destruct (findKmsGrantById _ _ _ _ _ w) as [[[g' e']| |] w2] eqn:F; try done;
    apply findKmsGrantById_result in F as [[Hg ->]|[-> ->]];
    injection E as <- <- <-; simpl; try (intros [= <- <- <-]; eauto).
  apply IH.
Qed.

Lemma waitForKmsGrantToBeRevoked_gone k w w1 w2 :
  nsteps finds k w w1 -> k <= retries -> misses w1 w2 ->
  waitForKmsGrantToBeRevoked retries deadlineError keyId grantId w
  = (Ret None, w2).
Proof.
  intros Hk Hle Hm. unfold waitForKmsGrantToBeRevoked, Retry.
  erewrite bind_run; last first.
  { replace retries with (k + (retries - k)) at 1 by lia.
    rewrite (Retry_loop_repeat _ finds k _ w w1);
      [|eauto using revokedAttempt_finds | done].
    apply Retry_loop_success. by apply revokedAttempt_misses. }
  reflexivity.
Qed.

Lemma waitForKmsGrantToBeRevoked_deadline w w1 :
  nsteps finds (S retries) w w1 ->
  waitForKmsGrantToBeRevoked retries deadlineError keyId grantId w
  = (Ret (Some (deadlineError
                  (Errorf "[DEBUG] Grant still exists while expected to be revoked, retyring revocation check: %s"
                          [ArgString grantId]))),
     w1).
Proof.
  intros Hk. unfold waitForKmsGrantToBeRevoked, Retry.
  erewrite bind_run; last first.
  { apply (Retry_loop_exhaust _ finds); [|done].
    apply revokedAttempt_finds. }
  reflexivity.
Qed.

(** The wait reports success only right after a lookup that did not find
    the grant. *)
Lemma waitForKmsGrantToBeRevoked_success w w' :
  waitForKmsGrantToBeRevoked retries deadlineError keyId grantId w
  = (Ret None, w') ->
  exists w0, misses w0 w'.
Proof.
  unfold waitForKmsGrantToBeRevoked, Retry. generalize retries at 1 as n.
  intros n H. unfold bind at 1 in H.
  destruct (Retry_loop _ _ _ w) as [[[[] e]| |] w1] eqn:R; try done.
  injection H as -> ->. revert w R. induction n as [|n IH]; intros w;
    rewrite Retry_loop_unfold; unfold bind at 1;
    destruct (revokedAttempt w) as [[[[] r]| |] w2] eqn:E; try done.
  all: unfold bind in E;
    destruct (findKmsGrantById _ _ _ _ _ w) as [[[g' e']| |] w3] eqn:F; try done;
    pose proof F as F';
    apply findKmsGrantById_result in F as [[[g ->] ->]|[-> ->]]; simpl in E.
  all: try (injection E as <- <-; intros [= <-]; by exists w).
  all: unfold lift in E; destruct (GrantId g); simpl in E; try done;
    injection E as <- <-; simpl; try done.
  apply IH.
Qed.
End LookupFacts.

(** ** Read and Exists *)

Section ReadFacts.
Variable retries : nat.
Variable deadlineError : error -> error.
Implicit Types (w : World) (d : ResourceData).

(** A listing that stays empty: every lookup misses. *)
Lemma lookupMisses_empty keyId grantId w rest :
  listGrantsResp w = samplePage [] None :: rest ->
  lookupMisses retries deadlineError keyId grantId w
    (listed (mkListGrantsInput keyId 100 None) rest w).
Proof.
  intros Hw. unfold lookupMisses, findKmsGrantById.
  by apply (findKmsGrantById_pages_missing _ _ _ _ _ _ _ _ _ Hw).
Qed.

Lemma lookupMisses_empty_repeat keyId grantId n w rest :
  listGrantsResp w = replicate n (samplePage [] None) ++ rest ->
  nsteps (lookupMisses retries deadlineError keyId grantId) n w
    (mkWorld (createGrantResp w) rest (revokeGrantResp w)
       (calls w ++ replicate n (CallListGrants (mkListGrantsInput keyId 100 None)))).
Proof.
  revert w. induction n as [|n IH]; intros w Hw; simpl in *.
  - rewrite app_nil_r. destruct w; simpl in *; subst. constructor.
  - eapply nsteps_l; [by apply lookupMisses_empty|].
    specialize (IH (listed (mkListGrantsInput keyId 100 None)
                           (replicate n (samplePage [] None) ++ rest) w) eq_refl).
    simpl in IH. by rewrite <- app_assoc in IH.
Qed.

Lemma resourceAwsKmsGrantRead_deadline d w w1 :
  nsteps (lookupMisses retries deadlineError (key_id d) (Id d)) (S retries) w w1 ->
  resourceAwsKmsGrantRead retries deadlineError d w
  = (Ret (Some (deadlineError
                  (MissingError (grantMissingMessage (Id d) (key_id d)))), d),
     w1).
Proof.
  intros H. unfold resourceAwsKmsGrantRead.
  by rewrite (bind_run _ _ _ _ _
                (findKmsGrantByIdWithRetry_deadline _ _ _ _ _ _ H)).
Qed.

(** No run of Read changes the stored identifier: its [grant == nil]
    branch, the only place that clears it, is never reached. *)
Lemma resourceAwsKmsGrantRead_Id d w err d' w' :
  resourceAwsKmsGrantRead retries deadlineError d w = (Ret (err, d'), w') ->
  Id d' = Id d.
Proof.
  unfold resourceAwsKmsGrantRead. unfold bind at 1.
  destruct (findKmsGrantByIdWithRetry _ _ _ _ w) as [[[g e]| |] w1] eqn:F; try done.
  apply findKmsGrantByIdWithRetry_result in F as [[[g' ->] ->]|[-> [e' ->]]].
  - unfold bind, lift.
    destruct (GranteePrincipal g') as [gp|]; simpl; [|done].
    destruct (Name g') as [n|]; simpl; [|done].
    intros [= <- <- <-].
    destruct (strings_HasPrefix gp "arn:aws"), (RetiringPrincipal g') as [rp|];
      try destruct (strings_HasPrefix rp "arn:aws");
      destruct (decide (n <> "")), (Constraints g'); reflexivity.
  - by intros [= <- <- <-].
Qed.

Lemma resourceAwsKmsGrantExists_cases d w grant err w' :
  findKmsGrantByIdWithRetry retries deadlineError (key_id d) (Id d) w
  = (Ret (grant, err), w') ->
  resourceAwsKmsGrantExists retries deadlineError d w
  = (Ret (match err, grant with
          | None, None => false
          | _, _ => true
          end, err), w').
Proof.
  intros H. unfold resourceAwsKmsGrantExists. rewrite (bind_run _ _ _ _ _ H).
  by destruct err, grant.
Qed.
End ReadFacts.

(** C10.  Exists answers [true] whenever the retried lookup ends with an
    error or with a grant, and [false] only when it ends with neither.  A
    grant that stays missing for the whole retry budget ends the lookup
    with the deadline error, so Exists reports [(true, error)] for an absent
    grant, not [(false, nil)]. *)
Theorem resourceAwsKmsGrantExists_absent_is_true
  (retries : nat) (deadlineError : error -> error)
  (d : ResourceData) (w : World)
  (grant : option GrantListEntry) (err : option error) (w' : World) :
  findKmsGrantByIdWithRetry retries deadlineError (key_id d) (Id d) w
  = (Ret (grant, err), w') ->
  resourceAwsKmsGrantExists retries deadlineError d w
  = (Ret (match err, grant with
          | None, None => false
          | _, _ => true
          end, err), w')
  /\ (is_Some err \/ is_Some grant)
  /\ (forall w1,
        nsteps (lookupMisses retries deadlineError (key_id d) (Id d))
               (S retries) w w1 ->
        resourceAwsKmsGrantExists retries deadlineError d w
        = (Ret (true,
                Some (deadlineError
                        (MissingError (grantMissingMessage (Id d) (key_id d))))),
           w1)).
Proof.
  intros H. split; [by apply resourceAwsKmsGrantExists_cases|]. split.
  - apply findKmsGrantByIdWithRetry_result in H as [[? _]|[_ ?]]; auto.
  - intros w1 Hmiss.
    by rewrite (resourceAwsKmsGrantExists_cases _ _ _ _ _ _ _
                  (findKmsGrantByIdWithRetry_deadline _ _ _ _ _ _ Hmiss)).
Qed.

Lemma resourceAwsKmsGrantExists_absent_is_true_witness :
  resourceAwsKmsGrantExists 1 id sampleData
    (sampleRemote [] [samplePage [] None; samplePage [] None] [])
  = (Ret (true, Some (MissingError "[DEBUG] Grant g1 not found for key id: key")),
     mkWorld [] [] []
       [CallListGrants (mkListGrantsInput "key" 100 None);
        CallListGrants (mkListGrantsInput "key" 100 None)]).
Proof.
  refine (proj1 (resourceAwsKmsGrantExists_absent_is_true 1 id sampleData
                   (sampleRemote [] [samplePage [] None; samplePage [] None] [])
                   None
                   (Some (MissingError "[DEBUG] Grant g1 not found for key id: key"))
                   _ _)).
  vm_compute. reflexivity.
Defined.

(** C6 (the code at an identifier that is absent from the listing).  With
    the listing empty for the whole retry budget, Read does not return
    [nil] and does not clear the identifier: it returns the deadline error
    of the missing-grant lookup and leaves the resource data as it was. *)
Theorem resourceAwsKmsGrantRead_absent_is_error
  (retries : nat) (deadlineError : error -> error) (d : ResourceData) :
  resourceAwsKmsGrantRead retries deadlineError d
    (sampleRemote [] (replicate (S retries) (samplePage [] None)) [])
  = (Ret (Some (deadlineError
                  (MissingError (grantMissingMessage (Id d) (key_id d)))), d),
     mkWorld [] [] []
       (replicate (S retries)
                  (CallListGrants (mkListGrantsInput (key_id d) 100 None)))).
Proof.
  apply resourceAwsKmsGrantRead_deadline.
  apply (lookupMisses_empty_repeat retries deadlineError (key_id d) (Id d)
           (S retries) (sampleRemote [] (replicate (S retries) (samplePage [] None)) [])
           []).
  simpl. by rewrite app_nil_r.
Qed.

Example resourceAwsKmsGrantRead_absent_sample :
  resourceAwsKmsGrantRead 1 id sampleData
    (sampleRemote [] [samplePage [] None; samplePage [] None] [])
  = (Ret (Some (MissingError "[DEBUG] Grant g1 not found for key id: key"),
          sampleData),
     mkWorld [] [] []
       [CallListGrants (mkListGrantsInput "key" 100 None);
        CallListGrants (mkListGrantsInput "key" 100 None)]).
Proof. vm_compute. reflexivity. Qed.

(** C7, as the code has it.  Read looks the grant up through
    [findKmsGrantByIdWithRetry]: a lookup that ends with the missing-grant
    error is attempted again from the first page while the retry budget
    lasts.  After [k] missing lookups within the budget, a lookup that
    finds the grant ends the retried lookup with that grant, and Read goes
    on exactly as it would from the world the missing lookups left.  A
    lookup that finds the grant is not repeated. *)
Theorem resourceAwsKmsGrantRead_retries_missing
  (retries : nat) (deadlineError : error -> error)
  (d : ResourceData) (k : nat) (w w1 w2 : World) (g : GrantListEntry) :
  nsteps (lookupMisses retries deadlineError (key_id d) (Id d)) k w w1 ->
  k <= retries ->
  findKmsGrantById retries deadlineError (key_id d) (Id d) None w1
  = (Ret (Some g, None), w2) ->
  findKmsGrantByIdWithRetry retries deadlineError (key_id d) (Id d) w
  = (Ret (Some g, None), w2)
  /\ resourceAwsKmsGrantRead retries deadlineError d w
     = resourceAwsKmsGrantRead retries deadlineError d w1.
Proof.
  intros Hk Hle Hg.
  pose proof (findKmsGrantByIdWithRetry_found _ _ _ _ _ _ _ _ _ Hk Hle Hg) as E.
  pose proof (findKmsGrantByIdWithRetry_found retries deadlineError _ _ 0 w1 w1 w2 g
                (nsteps_O _ _) (Nat.le_0_l _) Hg) as E1.
  split; [done|]. unfold resourceAwsKmsGrantRead.
  by rewrite (bind_run _ _ _ _ _ E), (bind_run _ _ _ _ _ E1).
Qed.

Lemma resourceAwsKmsGrantRead_retries_missing_witness :
  findKmsGrantByIdWithRetry 1 id "key" "g1"
    (sampleRemote []
       [samplePage [] None;
        samplePage [sampleGrant "g1" "arn:aws:iam::123:role/Y"] None] [])
  = (Ret (Some (sampleGrant "g1" "arn:aws:iam::123:role/Y"), None),
     mkWorld [] [] []
       [CallListGrants (mkListGrantsInput "key" 100 None);
        CallListGrants (mkListGrantsInput "key" 100 None)])
  /\ resourceAwsKmsGrantRead 1 id sampleData
       (sampleRemote []
          [samplePage [] None;
           samplePage [sampleGrant "g1" "arn:aws:iam::123:role/Y"] None] [])
     = resourceAwsKmsGrantRead 1 id sampleData
         (mkWorld []
            [samplePage [sampleGrant "g1" "arn:aws:iam::123:role/Y"] None] []
            [CallListGrants (mkListGrantsInput "key" 100 None)]).
Proof.
  refine (resourceAwsKmsGrantRead_retries_missing 1 id sampleData 1
            (sampleRemote []
               [samplePage [] None;
                samplePage [sampleGrant "g1" "arn:aws:iam::123:role/Y"] None] [])
            (mkWorld []
               [samplePage [sampleGrant "g1" "arn:aws:iam::123:role/Y"] None] []
               [CallListGrants (mkListGrantsInput "key" 100 None)])
            _ (sampleGrant "g1" "arn:aws:iam::123:role/Y") _ _ _).
  - apply (lookupMisses_empty_repeat 1 id "key" "g1" 1
             (sampleRemote []
                [samplePage [] None;
                 samplePage [sampleGrant "g1" "arn:aws:iam::123:role/Y"] None] [])
             [samplePage [sampleGrant "g1" "arn:aws:iam::123:role/Y"] None]).
    reflexivity.
  - simpl. lia.
  - vm_compute. reflexivity.
Defined.

(** C7, the claim as stated, fails: with a listing that is empty at the
    first lookup and holds the grant at the second, one lookup returns the
    missing-grant result after a single [ListGrants] call, and yet Read
    makes a second lookup and returns the grant's data without error. *)
Lemma resourceAwsKmsGrantRead_single_lookup_counterexample :
  findKmsGrantById 1 id "key" "g1" None
    (sampleRemote []
       [samplePage [] None;
        samplePage [sampleGrant "g1" "arn:aws:iam::123:role/Y"] None] [])
  = (Ret (None, Some (MissingError "[DEBUG] Grant g1 not found for key id: key")),
     mkWorld []
       [samplePage [sampleGrant "g1" "arn:aws:iam::123:role/Y"] None] []
       [CallListGrants (mkListGrantsInput "key" 100 None)])
  /\ resourceAwsKmsGrantRead 1 id sampleData
       (sampleRemote []
          [samplePage [] None;
           samplePage [sampleGrant "g1" "arn:aws:iam::123:role/Y"] None] [])
     = (Ret (None, Set_grantee_principal "arn:aws:iam::123:role/Y" sampleData),
        mkWorld [] [] []
          [CallListGrants (mkListGrantsInput "key" 100 None);
           CallListGrants (mkListGrantsInput "key" 100 None)]).
Proof. split; vm_compute; reflexivity. Qed.

(** X19.  When Read finds a grant that carries a grantee principal and a
    name, and the grantee principal does not start with ["arn:aws"], the
    stored grantee principal stays as it was, and the same holds for the
    retiring principal; the other fields are set from the grant as usual:
    the operations, the name when it is not empty, and the constraints
    when the grant has some. *)
Theorem resourceAwsKmsGrantRead_keeps_principal
  (retries : nat) (deadlineError : error -> error)
  (d : ResourceData) (w w' : World) (grant : GrantListEntry)
  (granteePrincipal grantName : string) :
  findKmsGrantByIdWithRetry retries deadlineError (key_id d) (Id d) w
  = (Ret (Some grant, None), w') ->
  GranteePrincipal grant = Some granteePrincipal ->
  Name grant = Some grantName ->
  exists d',
    resourceAwsKmsGrantRead retries deadlineError d w = (Ret (None, d'), w')
    /\ grantee_principal d'
       = (if strings_HasPrefix granteePrincipal "arn:aws"
          then granteePrincipal else grantee_principal d)
    /\ retiring_principal d'
       = match RetiringPrincipal grant with
         | Some retiringPrincipal =>
             if strings_HasPrefix retiringPrincipal "arn:aws"
             then retiringPrincipal else retiring_principal d
         | None => retiring_principal d
         end
    /\ operations d' = Operations grant
    /\ name d' = (if decide (grantName = "") then name d else grantName)
    /\ constraints d'
       = match Constraints grant with
         | Some c => flattenKmsGrantConstraints (Some c)
         | None => constraints d
         end
    /\ Id d' = Id d /\ key_id d' = key_id d
    /\ grant_id d' = grant_id d /\ grant_token d' = grant_token d
    /\ grant_creation_tokens d' = grant_creation_tokens d.
Proof.
  intros Hfind Hgp Hname. unfold resourceAwsKmsGrantRead.
  rewrite (bind_run _ _ _ _ _ Hfind). unfold bind, lift. rewrite Hgp, Hname. simpl.
  eexists. split; [reflexivity|].
  destruct (strings_HasPrefix granteePrincipal "arn:aws"),
    (RetiringPrincipal grant) as [rp|];
    try destruct (strings_HasPrefix rp "arn:aws");
    destruct (decide (grantName <> "")), (decide (grantName = "")),
      (Constraints grant); simpl; try done; by repeat split.
Qed.

Lemma resourceAwsKmsGrantRead_keeps_principal_witness :
  exists d',
    resourceAwsKmsGrantRead 1 id sampleData
      (sampleRemote [] [samplePage [sampleGrant "g1" "AROAJYCVIVUZIMTXXXXX"] None] [])
    = (Ret (None, d'),
       mkWorld [] [] [] [CallListGrants (mkListGrantsInput "key" 100 None)])
    /\ grantee_principal d' = "arn:aws:iam::123:role/X".
Proof.
  destruct (resourceAwsKmsGrantRead_keeps_principal 1 id sampleData
              (sampleRemote []
                 [samplePage [sampleGrant "g1" "AROAJYCVIVUZIMTXXXXX"] None] [])
              (mkWorld [] [] [] [CallListGrants (mkListGrantsInput "key" 100 None)])
              (sampleGrant "g1" "AROAJYCVIVUZIMTXXXXX")
              "AROAJYCVIVUZIMTXXXXX" "grant" eq_refl eq_refl eq_refl)
    as (d' & Hread & Hprincipal & _).
  exists d'. split; [exact Hread | exact Hprincipal].
Defined.

(** A grant without a name stops Read at the dereference of [grant.Name],
    whatever its principal looks like. *)
Lemma resourceAwsKmsGrantRead_no_name
  (retries : nat) (deadlineError : error -> error)
  (d : ResourceData) (w w' : World) (grant : GrantListEntry) :
  findKmsGrantByIdWithRetry retries deadlineError (key_id d) (Id d) w
  = (Ret (Some grant, None), w') ->
  is_Some (GranteePrincipal grant) -> Name grant = None ->
  resourceAwsKmsGrantRead retries deadlineError d w = (Panic, w').
Proof.
  intros Hfind [gp Hgp] Hname. unfold resourceAwsKmsGrantRead.
  rewrite (bind_run _ _ _ _ _ Hfind). unfold bind, lift. by rewrite Hgp, Hname.
Qed.

(** C8 (the code at a grant without a name).  The remote lists the grant
    that Read looks for with a grantee principal in the unique-id form and
    without a name.  Read does not leave the stored principal in place and
    set the other fields: it panics at the dereference of [grant.Name],
    for every retry budget and every resource data. *)
Theorem resourceAwsKmsGrantRead_nameless_grant
  (retries : nat) (deadlineError : error -> error) (d : ResourceData) :
  resourceAwsKmsGrantRead retries deadlineError d
    (sampleRemote []
       [samplePage
          [mkGrantListEntry (Some (Id d)) (Some "AROAJYCVIVUZIMTXXXXX")
                            None None ["Encrypt"] None] None] [])
  = (Panic,
     mkWorld [] [] [] [CallListGrants (mkListGrantsInput (key_id d) 100 None)]).
Proof.
  apply (resourceAwsKmsGrantRead_no_name retries deadlineError d _ _
           (mkGrantListEntry (Some (Id d)) (Some "AROAJYCVIVUZIMTXXXXX")
                             None None ["Encrypt"] None));
    [|by eexists|reflexivity].
  apply (findKmsGrantByIdWithRetry_found retries deadlineError _ _ 0 _ _ _ _
           (nsteps_O _ _) (Nat.le_0_l _)).
  unfold findKmsGrantById.
  eapply findKmsGrantById_pages_found; [reflexivity|].
  simpl. by rewrite decide_True.
Qed.

(** ** Delete *)

Section DeleteFacts.
Variable retries : nat.
Variable deadlineError : error -> error.
Implicit Types (w : World) (d : ResourceData).

Lemma RevokeGrant_response input w r rest :
  revokeGrantResp w = r :: rest ->
  RevokeGrant input w
  = (Ret r, mkWorld (createGrantResp w) (listGrantsResp w) rest
                    (calls w ++ [CallRevokeGrant input])).
Proof. intros H. unfold RevokeGrant. simpl. by rewrite H. Qed.

Lemma resourceAwsKmsGrantDelete_calls d w o w' :
  resourceAwsKmsGrantDelete retries deadlineError d w = (o, w') ->
  exists l,
    calls w'
    = calls w ++ CallRevokeGrant (mkRevokeGrantInput (grant_id d) (key_id d)) :: l
    /\ Forall isListGrantsCall l.
Proof.
  unfold resourceAwsKmsGrantDelete, bind at 1, RevokeGrant. simpl.
  destruct (revokeGrantResp w) as [|[e|] rest].
  - intros [= <- <-]. by exists [].
  - intros [= <- <-]. by exists [].
  - intros H. unfold bind in H.
    destruct (waitForKmsGrantToBeRevoked _ _ _ _ _) as [o1 w1] eqn:Hwait.
    apply (preserves_waitForKmsGrantToBeRevoked retries deadlineError
             isListGrantsCall (fun _ => I)) in Hwait as (l & Hl & HP).
    exists l. split; [|done]. simpl in Hl. rewrite <- app_assoc in Hl.
    destruct o1 as [[e|]| |]; unfold ret in H; by injection H as <- <-.
Qed.

Lemma resourceAwsKmsGrantDelete_result d w err d' w' :
  resourceAwsKmsGrantDelete retries deadlineError d w = (Ret (err, d'), w') ->
  (err = None /\ d' = SetId "" d
   /\ exists w0, lookupMisses retries deadlineError (key_id d) (grant_id d) w0 w')
  \/ (is_Some err /\ d' = d).
Proof.
  unfold resourceAwsKmsGrantDelete, bind at 1.
  destruct (RevokeGrant _ w) as [[[e|]| |] w0]; try done.
  - intros [= <- <- <-]. right. eauto.
  - unfold bind.
    destruct (waitForKmsGrantToBeRevoked _ _ _ _ w0) as [[[e|]| |] w1] eqn:Hwait;
      try done; intros [= <- <- <-].
    + right. eauto.
    + left. apply waitForKmsGrantToBeRevoked_success in Hwait. eauto.
Qed.
End DeleteFacts.

(** C5.  Delete sends exactly one [RevokeGrant] call and, after it, only
    [ListGrants] calls.  When the revoke fails its error is returned and
    the resource data, identifier included, stays as it was.  When it
    succeeds Delete polls the finder: a poll that still finds the grant is
    repeated while the retry budget lasts, a poll that misses it ends the
    wait with success, and only then is the identifier cleared; if the
    grant is still found when the budget is used up the deadline error is
    returned and the identifier is kept.  An identifier that is already
    absent from the listing is cleared after the first poll. *)
Theorem resourceAwsKmsGrantDelete_revoke_then_wait
  (retries : nat) (deadlineError : error -> error) (d : ResourceData) (w : World) :
  let revoke := CallRevokeGrant (mkRevokeGrantInput (grant_id d) (key_id d)) in
  let finds := lookupFinds retries deadlineError (key_id d) (grant_id d) in
  let misses := lookupMisses retries deadlineError (key_id d) (grant_id d) in
  (forall o w',
      resourceAwsKmsGrantDelete retries deadlineError d w = (o, w') ->
      exists l, calls w' = calls w ++ revoke :: l /\ Forall isListGrantsCall l)
  /\ (forall e rest,
        revokeGrantResp w = Some e :: rest ->
        resourceAwsKmsGrantDelete retries deadlineError d w
        = (Ret (Some e, d),
           mkWorld (createGrantResp w) (listGrantsResp w) rest (calls w ++ [revoke])))
  /\ (forall rest,
        revokeGrantResp w = None :: rest ->
        let w0 := mkWorld (createGrantResp w) (listGrantsResp w) rest
                          (calls w ++ [revoke]) in
        (forall w2,
            misses w0 w2 ->
            resourceAwsKmsGrantDelete retries deadlineError d w
            = (Ret (None, SetId "" d), w2))
        /\ (forall k w1 w2,
              nsteps finds k w0 w1 -> k <= retries -> misses w1 w2 ->
              resourceAwsKmsGrantDelete retries deadlineError d w
              = (Ret (None, SetId "" d), w2))
        /\ (forall w1,
              nsteps finds (S retries) w0 w1 ->
              resourceAwsKmsGrantDelete retries deadlineError d w
              = (Ret (Some (deadlineError
                              (Errorf "[DEBUG] Grant still exists while expected to be revoked, retyring revocation check: %s"
                                      [ArgString (grant_id d)])), d),
                 w1)))
  /\ (forall err d' w',
        resourceAwsKmsGrantDelete retries deadlineError d w = (Ret (err, d'), w') ->
        (err = None /\ d' = SetId "" d /\ exists w0, misses w0 w')
        \/ (is_Some err /\ d' = d)).
Proof.
  intros revoke finds misses. split; [|split; [|split]].
  - apply resourceAwsKmsGrantDelete_calls.
  - intros e rest Hw. unfold resourceAwsKmsGrantDelete.
    by rewrite (bind_run _ _ _ _ _ (RevokeGrant_response _ _ _ _ Hw)).
  - intros rest Hw w0.
    assert (Hgone : forall k w1 w2,
               nsteps finds k w0 w1 -> k <= retries -> misses w1 w2 ->
               resourceAwsKmsGrantDelete retries deadlineError d w
               = (Ret (None, SetId "" d), w2)).
    { intros k w1 w2 Hk Hle Hm. unfold resourceAwsKmsGrantDelete.
      rewrite (bind_run _ _ _ _ _ (RevokeGrant_response _ _ _ _ Hw)).
      by rewrite (bind_run _ _ _ _ _
                    (waitForKmsGrantToBeRevoked_gone _ _ _ _ _ _ _ _ Hk Hle Hm)). }
    split; [|split; [done|]].
    + intros w2 Hm. apply (Hgone 0 w0 w2); [constructor | lia | done].
    + intros w1 Hk. unfold resourceAwsKmsGrantDelete.
      rewrite (bind_run _ _ _ _ _ (RevokeGrant_response _ _ _ _ Hw)).
      by rewrite (bind_run _ _ _ _ _
                    (waitForKmsGrantToBeRevoked_deadline _ _ _ _ _ _ Hk)).
  - apply resourceAwsKmsGrantDelete_result.
Qed.

Lemma resourceAwsKmsGrantDelete_revoke_then_wait_witness :
  resourceAwsKmsGrantDelete 3 id sampleData
    (sampleRemote [] [samplePage [] None] [None])
  = (Ret (None, SetId "" sampleData),
     mkWorld [] [] []
       [CallRevokeGrant (mkRevokeGrantInput "g1" "key");
        CallListGrants (mkListGrantsInput "key" 100 None)]).
Proof.
  refine (proj1 (proj1 (proj2 (proj2
            (resourceAwsKmsGrantDelete_revoke_then_wait 3 id sampleData
               (sampleRemote [] [samplePage [] None] [None]))))
            [] eq_refl) _ _).
  vm_compute. reflexivity.
Defined.

(** ** The missing-grant error's [Error] method *)

(** C9.  [KmsGrantMissingError.Error] calls itself on the same receiver, so
    for every value of the type no call of [Error] returns: there is no
    derivation of a result, and the evaluator runs out of stack at every
    depth instead of returning the stored message. *)
Theorem KmsGrantMissingError_Error_diverges (e : KmsGrantMissingError) :
  (forall s, ~ Error_returns e s)
  /\ (forall depth, Error_depth depth e = None).
Proof.
  split.
  - intros s H. induction H as [e s _ IH]. exact IH.
  - intros depth. induction depth as [|depth IH]; [reflexivity | exact IH].
Qed.

Lemma kmsGrantConstraints_validation_witness :
  kmsGrantConstraintsIsValid
    [mkConstraint (Some [("x", "1")]) None; mkConstraint None (Some [("y", "2")])]
  = false
  /\ kmsGrantConstraintsIsValid [mkConstraint (Some [("x", "1")]) (Some [])] = true.
Proof.
  split.
  - refine (proj1 (proj2 (kmsGrantConstraints_validation 3 id))
              [mkConstraint (Some [("x", "1")]) None;
               mkConstraint None (Some [("y", "2")])]
              (mkConstraint (Some [("x", "1")]) None)
              (mkConstraint None (Some [("y", "2")]))
              [("x", "1")] [("y", "2")] _ _ eq_refl _ eq_refl _).
    + apply list_elem_of_here.
    + apply list_elem_of_further, list_elem_of_here.
    + discriminate.
    + discriminate.
  - exact (proj1 (proj2 (proj2 (kmsGrantConstraints_validation 3 id))) [("x", "1")]).
Defined.

(** * Further properties of the resource's functions *)

(** ** [getKmsGrantById] *)

(** X1.  On a page whose entries all carry a grant id, [getKmsGrantById]
    returns the first entry with the searched id: every entry before it has
    another id.  It returns nil only when no entry has the id. *)
Theorem getKmsGrantById_first_match (grants : list GrantListEntry) (id : string) :
  Forall (fun g => is_Some (GrantId g)) grants ->
  match getKmsGrantById grants id with
  | Ret (Some g) =>
      exists before after,
        grants = before ++ g :: after
        /\ GrantId g = Some id
        /\ Forall (fun g' => GrantId g' <> Some id) before
  | Ret None => Forall (fun g' => GrantId g' <> Some id) grants
  | _ => False
  end.
Proof.
  induction 1 as [|g grants [i Hi] _ IH]; simpl; [constructor|].
  rewrite Hi. simpl. case_decide as Heq.
  - subst i. exists [], grants. by repeat split.
  - destruct (getKmsGrantById grants id) as [[g'|]| |]; try done.
    + destruct IH as (before & after & -> & Hg' & Hb).
      exists (g :: before), after. repeat split; [done|].
      constructor; [|done]. rewrite Hi. by intros [= ->].
    + constructor; [|done]. rewrite Hi. by intros [= ->].
Qed.

Lemma getKmsGrantById_first_match_witness :
  exists before after,
    [sampleGrant "g1" "a"; sampleGrant "g2" "b"; sampleGrant "g2" "c"]
    = before ++ sampleGrant "g2" "b" :: after
    /\ GrantId (sampleGrant "g2" "b") = Some "g2"
    /\ Forall (fun g' => GrantId g' <> Some "g2") before.
Proof.
  refine (getKmsGrantById_first_match
            [sampleGrant "g1" "a"; sampleGrant "g2" "b"; sampleGrant "g2" "c"]
            "g2" _).
  repeat constructor; by eexists.
Defined.

(** ** Validation, expansion and flattening of constraints *)

Lemma nonEmptyVariantCount_Permutation (cs cs' : list Constraint) :
  cs ≡ₚ cs' -> nonEmptyVariantCount cs = nonEmptyVariantCount cs'.
Proof.
  induction 1 as [|c cs cs' _ IH|c1 c2 cs|cs1 cs2 cs3 _ IH1 _ IH2].
  - done.
  - by rewrite (nonEmptyVariantCount_cons c cs), (nonEmptyVariantCount_cons c cs'), IH.
  - change (c2 :: c1 :: cs) with ([c2] ++ [c1] ++ cs).
    change (c1 :: c2 :: cs) with ([c1] ++ [c2] ++ cs).
    rewrite !nonEmptyVariantCount_app. lia.
  - congruence.
Qed.

(** X2.  Whether a constraint set is valid does not depend on the order in
    which the set lists its elements. *)
Theorem kmsGrantConstraintsIsValid_Permutation (cs cs' : list Constraint) :
  cs ≡ₚ cs' -> kmsGrantConstraintsIsValid cs = kmsGrantConstraintsIsValid cs'.
Proof.
  intros Hp. apply eq_true_iff_eq.
  by rewrite !kmsGrantConstraintsIsValid_count, (nonEmptyVariantCount_Permutation _ _ Hp).
Qed.

Lemma kmsGrantConstraintsIsValid_Permutation_witness :
  kmsGrantConstraintsIsValid
    [mkConstraint (Some [("x", "1")]) None; mkConstraint None (Some [("y", "2")])]
  = kmsGrantConstraintsIsValid
      [mkConstraint None (Some [("y", "2")]); mkConstraint (Some [("x", "1")]) None].
Proof.
  apply (kmsGrantConstraintsIsValid_Permutation
           [mkConstraint (Some [("x", "1")]) None; mkConstraint None (Some [("y", "2")])]
           [mkConstraint None (Some [("y", "2")]); mkConstraint (Some [("x", "1")]) None]).
  apply perm_swap.
Defined.

(** Each mapping of the expanded constraints is the one the accumulator
    started with or comes from an element of the set. *)
Lemma expand_loop_origin (cs : list Constraint) (acc : GrantConstraints) :
  let r :=
    fold_left
      (fun constraint data =>
         let constraint :=
           match encryption_context_equals data with
           | Some contextEq =>
               mkGrantConstraints (Some contextEq)
                                  (EncryptionContextSubset constraint)
           | None => constraint
           end in
         match encryption_context_subset data with
         | Some contextSub =>
             mkGrantConstraints (EncryptionContextEquals constraint)
                                (Some contextSub)
         | None => constraint
         end)
      cs acc in
  (EncryptionContextEquals r = EncryptionContextEquals acc
   \/ exists c, c ∈ cs /\ is_Some (encryption_context_equals c)
                /\ encryption_context_equals c = EncryptionContextEquals r)
  /\ (EncryptionContextSubset r = EncryptionContextSubset acc
      \/ exists c, c ∈ cs /\ is_Some (encryption_context_subset c)
                   /\ encryption_context_subset c = EncryptionContextSubset r).
Proof.
  revert acc. induction cs as [|c cs IH]; intros acc; [by split; left|].
  destruct c as [[e|] [s|]];
    cbn [fold_left encryption_context_equals encryption_context_subset
         EncryptionContextEquals EncryptionContextSubset].
  all: match goal with
       | |- context [fold_left _ _ ?a] => destruct (IH a) as [He Hs]
       end.
  all: clear IH; cbn [EncryptionContextEquals EncryptionContextSubset] in He, Hs.
  all: split.
  all: match goal with
       | |- EncryptionContextEquals _ = _ \/ _ =>
           destruct He as [He|(c' & Hin & Hsome & He)]
       | |- EncryptionContextSubset _ = _ \/ _ =>
           clear He; destruct Hs as [He|(c' & Hin & Hsome & He)]
       end.
  all: first
         [ left; exact He
         | right; exists c'; split; [by apply list_elem_of_further|];
           split; [done | exact He]
         | right; eexists; split; [apply list_elem_of_here|];
           split; [by eexists | symmetry; exact He] ].
Qed.

(** X3.  [expandKmsGrantConstraints] returns nil exactly for the empty set,
    and from a valid set it never builds constraints in which both the
    [equals] and the [subset] mapping are non-empty. *)
Theorem expandKmsGrantConstraints_valid (cs : list Constraint) :
  kmsGrantConstraintsIsValid cs = true ->
  match expandKmsGrantConstraints cs with
  | None => cs = []
  | Some constraint =>
      cs <> []
      /\ forall me ms,
          EncryptionContextEquals constraint = Some me ->
          EncryptionContextSubset constraint = Some ms ->
          me = [] \/ ms = []
  end.
Proof.
  intros Hv. unfold expandKmsGrantConstraints.
  destruct cs as [|c cs]; [done|]. simpl length. case_decide; [lia|].
  split; [done|]. intros me ms He Hs.
  destruct (expand_loop_origin (c :: cs) (mkGrantConstraints None None)) as [Oe Os].
  assert (exists ce, ce ∈ c :: cs /\ encryption_context_equals ce = Some me)
    as (ce & Hce & Ee).
  { destruct Oe as [Oe|(ce & Hce & _ & Ee)].
    - exfalso. cut (Some me = (None : option StringMap)); [done|].
      etrans; [symmetry; exact He | exact Oe].
    - exists ce. split; [done|]. etrans; [exact Ee | exact He]. }
  assert (exists cs', cs' ∈ c :: cs /\ encryption_context_subset cs' = Some ms)
    as (cs' & Hcs & Es).
  { destruct Os as [Os|(cs' & Hcs & _ & Es)].
    - exfalso. cut (Some ms = (None : option StringMap)); [done|].
      etrans; [symmetry; exact Hs | exact Os].
    - exists cs'. split; [done|]. etrans; [exact Es | exact Hs]. }
  destruct me as [|x me]; [by left|]. destruct ms as [|y ms]; [by right|].
  exfalso.
  pose proof (nonEmptyVariantCount_both (c :: cs) ce cs' _ _ Hce Hcs Ee
                ltac:(done) Es ltac:(done)) as H2.
  apply kmsGrantConstraintsIsValid_count in Hv. lia.
Qed.

Lemma expandKmsGrantConstraints_valid_witness :
  [mkConstraint (Some [("ctx", "prod")]) (Some [])] <> []
  /\ forall me ms,
      Some [("ctx", "prod")] = Some me -> Some ([] : StringMap) = Some ms ->
      me = [] \/ ms = [].
Proof.
  exact (expandKmsGrantConstraints_valid
           [mkConstraint (Some [("ctx", "prod")]) (Some [])] eq_refl).
Defined.

(** X4.  Sending one constraint through [expandKmsGrantConstraints] and
    back through [flattenKmsGrantConstraints] gives a single constraint
    with the same hash, for every string hash: what Read stores never
    differs, as a set member, from what was configured. *)
Theorem flatten_expand_hash (hashcode_String : string -> Z) (c : Constraint) :
  exists c',
    flattenKmsGrantConstraints (expandKmsGrantConstraints [c]) = [c']
    /\ resourceKmsGrantConstraintsHash hashcode_String (Some c')
       = resourceKmsGrantConstraintsHash hashcode_String (Some c).
Proof.
  destruct c as [[[|e1 e]|] [[|s1 s]|]]; eexists; (split; [reflexivity|]);
    reflexivity.
Qed.

(** X5.  [flattenKmsGrantConstraints] yields at most one constraint, which
    never holds an empty mapping, and flattening is stable: expanding the
    flattened constraints and flattening again changes nothing. *)
Theorem flattenKmsGrantConstraints_stable (constraint : option GrantConstraints) :
  length (flattenKmsGrantConstraints constraint) <= 1
  /\ (forall c, c ∈ flattenKmsGrantConstraints constraint ->
                encryption_context_equals c <> Some []
                /\ encryption_context_subset c <> Some [])
  /\ flattenKmsGrantConstraints
       (expandKmsGrantConstraints (flattenKmsGrantConstraints constraint))
     = flattenKmsGrantConstraints constraint.
Proof.
  destruct constraint as [[[[|e1 e]|] [[|s1 s]|]]|]; simpl;
    (split; [lia|]); (split; [|reflexivity]); intros c Hc;
    try (apply list_elem_of_singleton in Hc as ->; by split);
    by apply elem_of_nil in Hc.
Qed.

(** ** The finder on failing and on incomplete responses *)

Section FinderErrors.
Variable retries : nat.
Variable deadlineError : error -> error.
Implicit Types (w : World) (keyId grantId : string) (marker : option string).

Local Abbreviation listGrantsAttempt input :=
  (let* (out, err) := ListGrants input in
   match err with
   | Some e =>
       if isListGrantsRetryable e
       then ret (out, Some (RetryableError e))
       else ret (out, Some (NonRetryableError (Some e)))
   | None => ret (out, None)
   end).

Lemma ListGrants_terminal n input w out err rest :
  listGrantsResp w = (out, err) :: rest -> terminalListGrants err ->
  Retry_loop deadlineError n (listGrantsAttempt input) w
  = (Ret (out, err), listed input rest w).
Proof.
  intros Hw Ht. destruct err as [e|]; simpl in Ht.
  - apply Retry_loop_fatal.
    rewrite (bind_run _ _ _ _ _ (ListGrants_response _ _ _ _ Hw)). simpl.
    by rewrite Ht.
  - apply Retry_loop_success.
    by rewrite (bind_run _ _ _ _ _ (ListGrants_response _ _ _ _ Hw)).
Qed.

Lemma ListGrants_transient input
      (failures : list (option ListGrantsResponse * error)) :
  Forall (fun r => isListGrantsRetryable r.2 = true) failures ->
  forall n w out err rest,
    length failures <= n ->
    listGrantsResp w = ((fun r => (r.1, Some r.2)) <$> failures) ++ (out, err) :: rest ->
    terminalListGrants err ->
    Retry_loop deadlineError n (listGrantsAttempt input) w
    = (Ret (out, err),
       mkWorld (createGrantResp w) rest (revokeGrantResp w)
               (calls w ++ replicate (S (length failures)) (CallListGrants input))).
Proof.
  induction 1 as [|[o e] failures He _ IH]; intros n w out err rest Hn Hw Ht;
    simpl in *.
  - by apply ListGrants_terminal.
  - destruct n as [|n]; [lia|].
    erewrite Retry_loop_again; last first.
    { rewrite (bind_run _ _ _ _ _ (ListGrants_response _ _ _ _ Hw)). simpl.
      by rewrite He. }
    erewrite IH; [|lia|simpl; reflexivity|done].
    simpl. by rewrite <- app_assoc.
Qed.
End FinderErrors.

(** X6.  [findKmsGrantById] hands back either a grant that carries the
    searched id, with no error, or no grant with the missing-grant error.
    No other error leaves it: an error of [ListGrants] is never returned to
    the caller. *)
Theorem findKmsGrantById_returns
  (retries : nat) (deadlineError : error -> error) (keyId grantId : string)
  (marker : option string) (w w' : World)
  (grant : option GrantListEntry) (err : option error) :
  findKmsGrantById retries deadlineError keyId grantId marker w
  = (Ret (grant, err), w') ->
  (exists g, grant = Some g /\ GrantId g = Some grantId /\ err = None)
  \/ (grant = None
      /\ err = Some (MissingError (grantMissingMessage grantId keyId))).
Proof.
  intros H. destruct (findKmsGrantById_result _ _ _ _ _ _ _ _ _ H)
    as [[[g ->] ->]|[-> ->]]; [left | by right].
  exists g. repeat split. by eapply findKmsGrantById_pages_GrantId.
Qed.

Lemma findKmsGrantById_returns_witness :
  (exists g, Some (sampleGrant "g1" "a") = Some g
             /\ GrantId g = Some "g1" /\ (None : option error) = None)
  \/ (Some (sampleGrant "g1" "a") = None
      /\ (None : option error)
         = Some (MissingError (grantMissingMessage "g1" "key"))).
Proof.
  apply (findKmsGrantById_returns 1 id "key" "g1" None
           (sampleRemote [] [samplePage [sampleGrant "g1" "a"] None] [])
           (mkWorld [] [] [] [CallListGrants (mkListGrantsInput "key" 100 None)])).
  vm_compute. reflexivity.
Defined.

(** X7.  A non-retryable error of [ListGrants] is discarded:
    [findKmsGrantById] goes on with the output that came with it, exactly
    as if the call had returned that output without an error. *)
Theorem findKmsGrantById_discards_error
  (retries : nat) (deadlineError : error -> error) (keyId grantId : string)
  (marker : option string) (w : World) (out : option ListGrantsResponse)
  (e : error) (rest : list (option ListGrantsResponse * option error)) :
  listGrantsResp w = (out, Some e) :: rest ->
  isListGrantsRetryable e = false ->
  findKmsGrantById retries deadlineError keyId grantId marker w
  = findKmsGrantById retries deadlineError keyId grantId marker
      (mkWorld (createGrantResp w) ((out, None) :: rest) (revokeGrantResp w)
               (calls w)).
Proof.
  intros Hw He. unfold findKmsGrantById. rewrite Hw. simpl length.
  rewrite !findKmsGrantById_pages_unfold. simpl.
  rewrite (bind_run _ _ _ _ _
             (ListGrants_terminal deadlineError retries _ w out (Some e) rest Hw He)).
  by rewrite (bind_run _ _ _ _ _
                (ListGrants_terminal deadlineError retries _
                   (mkWorld (createGrantResp w) ((out, None) :: rest)
                            (revokeGrantResp w) (calls w))
                   out None rest eq_refl I)).
Qed.

Lemma findKmsGrantById_discards_error_witness :
  findKmsGrantById 1 id "key" "g1" None
    (sampleRemote []
       [(Some (mkListGrantsResponse [] (Some false) None),
         Some (AwsError "AccessDeniedException" "denied"))] [])
  = (Ret (None, Some (MissingError "[DEBUG] Grant g1 not found for key id: key")),
     mkWorld [] [] [] [CallListGrants (mkListGrantsInput "key" 100 None)]).
Proof.
  rewrite (findKmsGrantById_discards_error 1 id "key" "g1" None
             (sampleRemote []
                [(Some (mkListGrantsResponse [] (Some false) None),
                  Some (AwsError "AccessDeniedException" "denied"))] [])
             (Some (mkListGrantsResponse [] (Some false) None))
             (AwsError "AccessDeniedException" "denied") [] eq_refl eq_refl).
  reflexivity.
Defined.

(** X8.  When the call that [Retry] settles on returns an output that is
    nil, or that lacks a field the finder reads (a grant id scanned before
    a match, the truncation flag, the marker of a truncated page),
    [findKmsGrantById] panics on the nil dereference after that one page;
    it returns neither a grant nor an error. *)
Theorem findKmsGrantById_nil_dereference
  (retries : nat) (deadlineError : error -> error) (keyId grantId : string)
  (marker : option string) (w : World) (out : option ListGrantsResponse)
  (err : option error) (rest : list (option ListGrantsResponse * option error)) :
  listGrantsResp w = (out, err) :: rest ->
  terminalListGrants err ->
  dereferencesNil grantId out ->
  findKmsGrantById retries deadlineError keyId grantId marker w
  = (Panic, listed (mkListGrantsInput keyId 100 marker) rest w).
Proof.
  intros Hw Ht Hnil. unfold findKmsGrantById. rewrite Hw. simpl length.
  rewrite findKmsGrantById_pages_unfold. simpl.
  rewrite (bind_run _ _ _ _ _
             (ListGrants_terminal deadlineError retries _ w out err rest Hw Ht)).
  unfold bind, lift. destruct out as [p|]; simpl in *; [|done].
  destruct Hnil as [->|[-> [->|[-> ->]]]]; done.
Qed.

Lemma findKmsGrantById_nil_dereference_witness :
  findKmsGrantById 1 id "key" "g1" None
    (sampleRemote []
       [(Some (mkListGrantsResponse [] None None),
         Some (AwsError "AccessDeniedException" "denied"))] [])
  = (Panic, mkWorld [] [] [] [CallListGrants (mkListGrantsInput "key" 100 None)]).
Proof.
  refine (findKmsGrantById_nil_dereference 1 id "key" "g1" None
            (sampleRemote []
               [(Some (mkListGrantsResponse [] None None),
                 Some (AwsError "AccessDeniedException" "denied"))] [])
            (Some (mkListGrantsResponse [] None None))
            (Some (AwsError "AccessDeniedException" "denied")) []
            eq_refl eq_refl _).
  simpl. right. split; [reflexivity | by left].
Defined.

(** X9.  Transient failures of [ListGrants] are absorbed page by page:
    after any number of retryable errors within the retry budget, the page
    that finally arrives is searched as usual, and the remote has received
    one [ListGrants] call with the same input per failure plus one. *)
Theorem findKmsGrantById_transient
  (retries : nat) (deadlineError : error -> error) (keyId grantId : string)
  (marker : option string) (w : World)
  (failures : list (option ListGrantsResponse * error))
  (p : ListGrantsResponse)
  (rest : list (option ListGrantsResponse * option error)) :
  Forall (fun r => isListGrantsRetryable r.2 = true) failures ->
  length failures <= retries ->
  listGrantsResp w
  = ((fun r => (r.1, Some r.2)) <$> failures) ++ (Some p, None) :: rest ->
  let w' := mkWorld (createGrantResp w) rest (revokeGrantResp w)
                    (calls w ++ replicate (S (length failures))
                                  (CallListGrants (mkListGrantsInput keyId 100 marker))) in
  (forall g,
      getKmsGrantById (Grants p) grantId = Ret (Some g) ->
      findKmsGrantById retries deadlineError keyId grantId marker w
      = (Ret (Some g, None), w'))
  /\ (getKmsGrantById (Grants p) grantId = Ret None ->
      Truncated p = Some false ->
      findKmsGrantById retries deadlineError keyId grantId marker w
      = (Ret (None, Some (MissingError (grantMissingMessage grantId keyId))), w')).
Proof.
  intros Hf Hn Hw w'.
  pose proof (ListGrants_transient deadlineError
                (mkListGrantsInput keyId 100 marker) failures Hf
                retries w (Some p) None rest Hn Hw I) as Hretry.
  unfold findKmsGrantById. rewrite Hw.
  rewrite findKmsGrantById_pages_unfold. simpl. rewrite <- Hw.
  rewrite (bind_run _ _ _ _ _ Hretry). unfold bind, lift. simpl.
  split.
  - by intros g ->.
  - by intros -> ->.
Qed.

Lemma findKmsGrantById_transient_witness :
  findKmsGrantById 2 id "key" "g1" None
    (sampleRemote []
       [(None, Some (AwsError "InternalException" "try again"));
        samplePage [sampleGrant "g1" "a"] None] [])
  = (Ret (Some (sampleGrant "g1" "a"), None),
     mkWorld [] [] []
       [CallListGrants (mkListGrantsInput "key" 100 None);
        CallListGrants (mkListGrantsInput "key" 100 None)]).
Proof.
  refine (proj1 (findKmsGrantById_transient 2 id "key" "g1" None
                   (sampleRemote []
                      [(None, Some (AwsError "InternalException" "try again"));
                       samplePage [sampleGrant "g1" "a"] None] [])
                   [(None, AwsError "InternalException" "try again")]
                   (mkListGrantsResponse [sampleGrant "g1" "a"] (Some false) None)
                   [] _ _ _) _ _).
  - by repeat constructor.
  - simpl. lia.
  - reflexivity.
  - reflexivity.
Defined.

(** ** Create, Read, Exists and the wait for revocation *)

Section ControllerMore.
Variable retries : nat.
Variable deadlineError : error -> error.
Implicit Types (w : World) (d : ResourceData).

Local Abbreviation createGrantAttempt input :=
  (let* (out, err) := CreateGrant input in
   match err with
   | Some err =>
       if isCreateGrantRetryable err
       then ret (out,
                 Some (RetryableError
                         (Errorf "[WARN] Error adding new KMS Grant for key: %s, retrying %s"
                                 [ArgString (cg_KeyId input); ArgError err])))
       else ret (out, Some (NonRetryableError (Some err)))
   | None => ret (out, None)
   end).

Local Abbreviation lookupAttempt keyId grantId :=
  (let* (grant, err) := findKmsGrantById retries deadlineError keyId grantId None in
   match err with
   | Some err =>
       match err with
       | MissingError serr =>
           ret (grant, Some (RetryableError (MissingError serr)))
       | _ => ret (grant, Some (NonRetryableError (Some err)))
       end
   | None => ret (grant, None)
   end).

Local Abbreviation revokedAttempt keyId grantId :=
  (let* (grant, err) := findKmsGrantById retries deadlineError keyId grantId None in
   match err with
   | Some (MissingError _) => ret (tt, None)
   | _ =>
       match grant with
       | Some grant =>
           let* id := lift (deref (GrantId grant)) in
           ret (tt,
                Some (RetryableError
                        (Errorf "[DEBUG] Grant still exists while expected to be revoked, retyring revocation check: %s"
                                [ArgString id])))
       | None => ret (tt, Some (NonRetryableError err))
       end
   end).

Lemma CreateGrant_transient input
      (failures : list (option CreateGrantOutput * error)) :
  Forall (fun r => isCreateGrantRetryable r.2 = true) failures ->
  forall n w out err rest,
    length failures <= n ->
    createGrantResp w = ((fun r => (r.1, Some r.2)) <$> failures) ++ (out, err) :: rest ->
    terminalCreateGrant err ->
    Retry_loop deadlineError n (createGrantAttempt input) w
    = (Ret (out, err),
       mkWorld rest (listGrantsResp w) (revokeGrantResp w)
               (calls w ++ replicate (S (length failures)) (CallCreateGrant input))).
Proof.
  induction 1 as [|[o e] failures He _ IH]; intros n w out err rest Hn Hw Ht;
    simpl in *.
  - destruct err as [e|]; simpl in Ht.
    + apply Retry_loop_fatal.
      rewrite (bind_run _ _ _ _ _ (CreateGrant_response _ _ _ _ Hw)). simpl.
      by rewrite Ht.
    + apply Retry_loop_success.
      by rewrite (bind_run _ _ _ _ _ (CreateGrant_response _ _ _ _ Hw)).
  - destruct n as [|n]; [lia|].
    erewrite Retry_loop_again; last first.
    { rewrite (bind_run _ _ _ _ _ (CreateGrant_response _ _ _ _ Hw)). simpl.
      by rewrite He. }
    erewrite IH; [|lia|simpl; reflexivity|done].
    simpl. by rewrite <- app_assoc.
Qed.

Lemma resourceAwsKmsGrantCreate_submitted d w failures out rest grantId :
  kmsGrantConstraintsIsValid (constraints d) = true ->
  Forall (fun r => isCreateGrantRetryable r.2 = true) failures ->
  length failures <= retries ->
  createGrantResp w
  = ((fun r => (r.1, Some r.2)) <$> failures) ++ (Some out, None) :: rest ->
  out_GrantId out = Some grantId ->
  resourceAwsKmsGrantCreate retries deadlineError d w
  = resourceAwsKmsGrantRead retries deadlineError (createdData grantId out d)
      (mkWorld rest (listGrantsResp w) (revokeGrantResp w)
         (calls w ++ replicate (S (length failures))
                       (CallCreateGrant (createGrantRequest d)))).
Proof.
  intros Hv Hf Hn Hw Hid. rewrite (resourceAwsKmsGrantCreate_valid _ _ _ _ Hv).
  rewrite (bind_run _ _ _ _ _
             (CreateGrant_transient _ failures Hf retries w (Some out) None rest
                Hn Hw I)).
  unfold bind, lift. simpl. by rewrite Hid.
Qed.

Lemma resourceAwsKmsGrantCreate_settled d w failures out err rest :
  kmsGrantConstraintsIsValid (constraints d) = true ->
  Forall (fun r => isCreateGrantRetryable r.2 = true) failures ->
  length failures <= retries ->
  createGrantResp w
  = ((fun r => (r.1, Some r.2)) <$> failures) ++ (out, err) :: rest ->
  terminalCreateGrant err ->
  resourceAwsKmsGrantCreate retries deadlineError d w
  = (let (out, err) := (out, err) in
     match err with
     | Some err => ret (Some err, d)
     | None =>
         let* out := lift (deref out) in
         let* grantId := lift (deref (out_GrantId out)) in
         resourceAwsKmsGrantRead retries deadlineError (createdData grantId out d)
     end)
      (mkWorld rest (listGrantsResp w) (revokeGrantResp w)
         (calls w ++ replicate (S (length failures))
                       (CallCreateGrant (createGrantRequest d)))).
Proof.
  intros Hv Hf Hn Hw Ht. rewrite (resourceAwsKmsGrantCreate_valid _ _ _ _ Hv).
  by rewrite (bind_run _ _ _ _ _
                (CreateGrant_transient _ failures Hf retries w out err rest Hn Hw Ht)).
Qed.

(** The fields that Read never writes, and the whole resource data when it
    returns an error. *)
Lemma resourceAwsKmsGrantRead_kept d w err d' w' :
  resourceAwsKmsGrantRead retries deadlineError d w = (Ret (err, d'), w') ->
  Id d' = Id d /\ key_id d' = key_id d /\ grant_id d' = grant_id d
  /\ grant_token d' = grant_token d
  /\ grant_creation_tokens d' = grant_creation_tokens d
  /\ (is_Some err -> d' = d).
Proof.
  unfold resourceAwsKmsGrantRead. unfold bind at 1.
  destruct (findKmsGrantByIdWithRetry _ _ _ _ w) as [[[g e]| |] w1] eqn:F; try done.
  apply findKmsGrantByIdWithRetry_result in F as [[[g' ->] ->]|[-> [e' ->]]].
  - unfold bind, lift.
    destruct (GranteePrincipal g') as [gp|]; simpl; [|done].
    destruct (Name g') as [n|]; simpl; [|done].
    intros [= <- <- <-].
    destruct (strings_HasPrefix gp "arn:aws"), (RetiringPrincipal g') as [rp|];
      try destruct (strings_HasPrefix rp "arn:aws");
      destruct (decide (n <> "")), (Constraints g');
      repeat split; by intros [? [=]].
  - intros [= <- <- <-]. by repeat split.
Qed.

Lemma findKmsGrantByIdWithRetry_success keyId grantId w g w' :
  findKmsGrantByIdWithRetry retries deadlineError keyId grantId w
  = (Ret (Some g, None), w') ->
  exists w0,
    findKmsGrantById retries deadlineError keyId grantId None w0
    = (Ret (Some g, None), w').
Proof.
  unfold findKmsGrantByIdWithRetry, Retry. generalize retries at 1 as n.
  intros n. revert w. induction n as [|n IH]; intros w;
    rewrite Retry_loop_unfold; unfold bind at 1;
    destruct (lookupAttempt keyId grantId w) as [[[g1 r]| |] w1] eqn:E; try done;
    unfold bind in E;
    destruct (findKmsGrantById _ _ _ _ _ w) as [[[g2 e2]| |] w2] eqn:F; try done;
    pose proof F as F';
    apply findKmsGrantById_result in F as [[[g3 ->] ->]|[-> ->]];
    injection E as <- <- <-; simpl; try done.
  all: try (intros [= <- <-]; by exists w).
  apply IH.
Qed.

(** X15.  [waitForKmsGrantToBeRevoked] returns nil or the deadline error of
    a grant that still exists; the missing-grant error never leaves it. *)
Theorem waitForKmsGrantToBeRevoked_returns keyId grantId w r w' :
  waitForKmsGrantToBeRevoked retries deadlineError keyId grantId w = (Ret r, w') ->
  r = None
  \/ r = Some (deadlineError
                 (Errorf "[DEBUG] Grant still exists while expected to be revoked, retyring revocation check: %s"
                         [ArgString grantId])).
Proof.
  unfold waitForKmsGrantToBeRevoked, Retry. generalize retries at 1 as n.
  intros n H. unfold bind at 1 in H.
  destruct (Retry_loop _ _ _ w) as [[[[] e]| |] w1] eqn:R; try done.
  injection H as <- <-. revert w R. induction n as [|n IH]; intros w;
    rewrite Retry_loop_unfold; unfold bind at 1;
    destruct (revokedAttempt keyId grantId w) as [[[[] r]| |] w2] eqn:E; try done.
  all: unfold bind in E;
    destruct (findKmsGrantById _ _ _ _ _ w) as [[[g' e']| |] w3] eqn:F; try done;
    pose proof F as F';
    apply findKmsGrantById_result in F as [[[g ->] ->]|[-> ->]]; simpl in E.
  all: try (injection E as <- <-; intros [= <- <-]; by left).
  all: apply findKmsGrantById_pages_GrantId in F'; unfold lift in E;
    rewrite F' in E; simpl in E; injection E as <- <-; simpl.
  - intros [= <- <-]. by right.
  - apply IH.
Qed.
End ControllerMore.

(** X10.  Create sends the same request once per retryable failure of
    [CreateGrant], within the retry budget, and once more.  If that last
    call fails with a non-retryable error, Create returns the error and
    leaves the resource data as it was.  If it succeeds, Create stores the
    returned grant id as identifier and as [grant_id] and the returned
    token as [grant_token] and finishes exactly as Read does on that
    resource data; a success without an output or without a grant id makes
    it panic. *)
Theorem resourceAwsKmsGrantCreate_reads_back
  (retries : nat) (deadlineError : error -> error)
  (d : ResourceData) (w : World)
  (failures : list (option CreateGrantOutput * error))
  (out : option CreateGrantOutput) (err : option error)
  (rest : list (option CreateGrantOutput * option error)) :
  kmsGrantConstraintsIsValid (constraints d) = true ->
  Forall (fun r => isCreateGrantRetryable r.2 = true) failures ->
  length failures <= retries ->
  createGrantResp w
  = ((fun r => (r.1, Some r.2)) <$> failures) ++ (out, err) :: rest ->
  terminalCreateGrant err ->
  let w1 := mkWorld rest (listGrantsResp w) (revokeGrantResp w)
              (calls w ++ replicate (S (length failures))
                            (CallCreateGrant (createGrantRequest d))) in
  resourceAwsKmsGrantCreate retries deadlineError d w
  = match err, out with
    | Some e, _ => (Ret (Some e, d), w1)
    | None, None => (Panic, w1)
    | None, Some o =>
        match out_GrantId o with
        | None => (Panic, w1)
        | Some grantId =>
            resourceAwsKmsGrantRead retries deadlineError
              (createdData grantId o d) w1
        end
    end.
Proof.
  intros Hv Hf Hn Hw Ht w1.
  rewrite (resourceAwsKmsGrantCreate_settled retries deadlineError d w failures
             out err rest Hv Hf Hn Hw Ht).
  destruct err as [e|]; [reflexivity|].
  destruct out as [o|]; [|reflexivity].
  unfold bind, lift. simpl. by destruct (out_GrantId o).
Qed.

Lemma resourceAwsKmsGrantCreate_reads_back_witness :
  resourceAwsKmsGrantCreate 3 id sampleData
    (sampleRemote
       [(None, Some (AwsError "InvalidArnException" "role not found"));
        (Some (mkCreateGrantOutput (Some "abc123") (Some "tok")), None)]
       [samplePage [sampleGrant "abc123" "arn:aws:iam::123:role/X"] None] [])
  = resourceAwsKmsGrantRead 3 id
      (createdData "abc123" (mkCreateGrantOutput (Some "abc123") (Some "tok"))
                   sampleData)
      (mkWorld [] [samplePage [sampleGrant "abc123" "arn:aws:iam::123:role/X"] None] []
         [CallCreateGrant (createGrantRequest sampleData);
          CallCreateGrant (createGrantRequest sampleData)]).
Proof.
  refine (resourceAwsKmsGrantCreate_reads_back 3 id sampleData
            (sampleRemote
               [(None, Some (AwsError "InvalidArnException" "role not found"));
                (Some (mkCreateGrantOutput (Some "abc123") (Some "tok")), None)]
               [samplePage [sampleGrant "abc123" "arn:aws:iam::123:role/X"] None] [])
            [(None, AwsError "InvalidArnException" "role not found")]
            (Some (mkCreateGrantOutput (Some "abc123") (Some "tok"))) None []
            eq_refl _ _ eq_refl I).
  - by repeat constructor.
  - simpl. lia.
Defined.

(** X11.  Once [CreateGrant] has succeeded, every way in which Create
    returns leaves the remote-assigned grant id in the identifier and in
    [grant_id], also when the read-back fails; and Create returns without
    an error only right after a lookup that found a grant with that id. *)
Theorem resourceAwsKmsGrantCreate_keeps_id
  (retries : nat) (deadlineError : error -> error)
  (d : ResourceData) (w : World) (out : CreateGrantOutput)
  (rest : list (option CreateGrantOutput * option error)) (grantId : string)
  (err : option error) (d' : ResourceData) (w' : World) :
  kmsGrantConstraintsIsValid (constraints d) = true ->
  createGrantResp w = (Some out, None) :: rest ->
  out_GrantId out = Some grantId ->
  resourceAwsKmsGrantCreate retries deadlineError d w = (Ret (err, d'), w') ->
  Id d' = grantId /\ grant_id d' = grantId
  /\ grant_token d' = default "" (out_GrantToken out)
  /\ (err = None ->
      exists g w0,
        findKmsGrantById retries deadlineError (key_id d) grantId None w0
        = (Ret (Some g, None), w')
        /\ GrantId g = Some grantId).
Proof.
  intros Hv Hw Hid Hrun.
  rewrite (resourceAwsKmsGrantCreate_submitted retries deadlineError d w []
             out rest grantId Hv (Forall_nil_2 _) (Nat.le_0_l _) Hw Hid) in Hrun.
  destruct (resourceAwsKmsGrantRead_kept _ _ _ _ _ _ _ Hrun)
    as (HId & _ & Hgid & Htok & _).
  repeat split; [done..|]. intros ->.
  unfold resourceAwsKmsGrantRead in Hrun. unfold bind at 1 in Hrun.
  destruct (findKmsGrantByIdWithRetry _ _ _ _ _) as [[[g e]| |] w1] eqn:F; try done.
  pose proof F as F'.
  apply findKmsGrantByIdWithRetry_result in F as [[[g' ->] ->]|[-> [e' ->]]];
    [|done].
  assert (w1 = w') as ->.
  { unfold bind, lift in Hrun.
    destruct (GranteePrincipal g'); simpl in Hrun; [|done].
    destruct (Name g'); simpl in Hrun; [|done]. by injection Hrun. }
  apply findKmsGrantByIdWithRetry_success in F' as [w0 F'].
  exists g', w0. split; [done|]. by eapply findKmsGrantById_pages_GrantId.
Qed.

Lemma resourceAwsKmsGrantCreate_keeps_id_witness :
  Id (createdData "abc123" (mkCreateGrantOutput (Some "abc123") (Some "tok")) sampleData)
  = "abc123"
  /\ grant_id (createdData "abc123" (mkCreateGrantOutput (Some "abc123") (Some "tok"))
                           sampleData)
     = "abc123".
Proof.
  destruct (resourceAwsKmsGrantCreate_keeps_id 0 id sampleData
              (sampleRemote
                 [(Some (mkCreateGrantOutput (Some "abc123") (Some "tok")), None)]
                 [samplePage [] None] [])
              (mkCreateGrantOutput (Some "abc123") (Some "tok")) [] "abc123"
              (Some (MissingError "[DEBUG] Grant abc123 not found for key id: key"))
              (createdData "abc123" (mkCreateGrantOutput (Some "abc123") (Some "tok"))
                           sampleData)
              (mkWorld [] [] []
                 [CallCreateGrant (createGrantRequest sampleData);
                  CallListGrants (mkListGrantsInput "key" 100 None)])
              eq_refl eq_refl eq_refl eq_refl) as (H1 & H2 & _).
  split; [exact H1 | exact H2].
Defined.

(** X12.  Read never writes the identifier, [key_id], [grant_id],
    [grant_token] or [grant_creation_tokens]; when it returns an error it
    leaves the whole resource data as it was; and it returns without an
    error only when the retried lookup ended with a grant. *)
Theorem resourceAwsKmsGrantRead_frame
  (retries : nat) (deadlineError : error -> error)
  (d d' : ResourceData) (w w' : World) (err : option error) :
  resourceAwsKmsGrantRead retries deadlineError d w = (Ret (err, d'), w') ->
  Id d' = Id d /\ key_id d' = key_id d /\ grant_id d' = grant_id d
  /\ grant_token d' = grant_token d
  /\ grant_creation_tokens d' = grant_creation_tokens d
  /\ (is_Some err -> d' = d)
  /\ (err = None ->
      exists g,
        findKmsGrantByIdWithRetry retries deadlineError (key_id d) (Id d) w
        = (Ret (Some g, None), w')).
Proof.
  intros Hrun.
  destruct (resourceAwsKmsGrantRead_kept _ _ _ _ _ _ _ Hrun)
    as (H1 & H2 & H3 & H4 & H5 & H6).
  repeat split; [done..|]. intros ->.
  unfold resourceAwsKmsGrantRead in Hrun. unfold bind at 1 in Hrun.
  destruct (findKmsGrantByIdWithRetry _ _ _ _ w) as [[[g e]| |] w1] eqn:F; try done.
  pose proof F as F'.
  apply findKmsGrantByIdWithRetry_result in F as [[[g' ->] ->]|[-> [e' ->]]];
    [|done].
  exists g'. unfold bind, lift in Hrun.
  destruct (GranteePrincipal g'); simpl in Hrun; [|done].
  destruct (Name g'); simpl in Hrun; [|done]. by injection Hrun as _ <-.
Qed.

Lemma resourceAwsKmsGrantRead_frame_witness :
  Id (Set_grantee_principal "arn:aws:iam::123:role/Y" sampleData) = Id sampleData.
Proof.
  exact (proj1 (resourceAwsKmsGrantRead_frame 1 id sampleData
                  (Set_grantee_principal "arn:aws:iam::123:role/Y" sampleData)
                  (sampleRemote []
                     [samplePage [sampleGrant "g1" "arn:aws:iam::123:role/Y"] None] [])
                  (mkWorld [] [] []
                     [CallListGrants (mkListGrantsInput "key" 100 None)])
                  None eq_refl)).
Defined.

(** X13.  Read and Exists only ever send [ListGrants] calls: whatever they
    return, and also when they panic or block, the remote has received no
    [CreateGrant] and no [RevokeGrant] call from them. *)
Theorem resourceAwsKmsGrantRead_Exists_only_list
  (retries : nat) (deadlineError : error -> error) (d : ResourceData) (w : World) :
  (forall o w',
      resourceAwsKmsGrantRead retries deadlineError d w = (o, w') ->
      exists l, calls w' = calls w ++ l /\ Forall isListGrantsCall l)
  /\ (forall o w',
        resourceAwsKmsGrantExists retries deadlineError d w = (o, w') ->
        exists l, calls w' = calls w ++ l /\ Forall isListGrantsCall l).
Proof.
  split.
  - apply (preserves_resourceAwsKmsGrantRead retries deadlineError
             isListGrantsCall (fun _ => I)).
  - assert (preserves isListGrantsCall
              (resourceAwsKmsGrantExists retries deadlineError d)) as H; [|apply H].
    pose proof (preserves_findKmsGrantByIdWithRetry retries deadlineError
                  isListGrantsCall (fun _ => I)) as Hfind.
    unfold resourceAwsKmsGrantExists. repeat (preserves_step; auto).
Qed.

Lemma resourceAwsKmsGrantRead_Exists_only_list_witness :
  exists l,
    [CallListGrants (mkListGrantsInput "key" 100 None)] = [] ++ l
    /\ Forall isListGrantsCall l.
Proof.
  exact (proj1 (resourceAwsKmsGrantRead_Exists_only_list 1 id sampleData
                  (sampleRemote []
                     [samplePage [sampleGrant "g1" "arn:aws:iam::123:role/Y"] None] []))
               (Ret (None, Set_grantee_principal "arn:aws:iam::123:role/Y" sampleData))
               (mkWorld [] [] []
                  [CallListGrants (mkListGrantsInput "key" 100 None)])
               eq_refl).
Defined.

(** X14.  Exists never answers [false]: in every run that returns, the
    boolean is [true], with or without an error. *)
Theorem resourceAwsKmsGrantExists_never_false
  (retries : nat) (deadlineError : error -> error)
  (d : ResourceData) (w w' : World) (exists_ : bool) (err : option error) :
  resourceAwsKmsGrantExists retries deadlineError d w = (Ret (exists_, err), w') ->
  exists_ = true.
Proof.
  unfold resourceAwsKmsGrantExists. unfold bind at 1.
  destruct (findKmsGrantByIdWithRetry _ _ _ _ w) as [[[g e]| |] w1] eqn:F; try done.
  apply findKmsGrantByIdWithRetry_result in F as [[[g' ->] ->]|[-> [e' ->]]];
    by intros [= <- _ _].
Qed.

Lemma resourceAwsKmsGrantExists_never_false_witness : true = true.
Proof.
  exact (resourceAwsKmsGrantExists_never_false 1 id sampleData
           (sampleRemote [] [samplePage [sampleGrant "g1" "a"] None] [])
           (mkWorld [] [] [] [CallListGrants (mkListGrantsInput "key" 100 None)])
           true None eq_refl).
Defined.

Lemma waitForKmsGrantToBeRevoked_returns_witness :
  Some (Errorf "[DEBUG] Grant still exists while expected to be revoked, retyring revocation check: %s"
               [ArgString "g1"]) = None
  \/ Some (Errorf "[DEBUG] Grant still exists while expected to be revoked, retyring revocation check: %s"
                  [ArgString "g1"])
     = Some (id (Errorf "[DEBUG] Grant still exists while expected to be revoked, retyring revocation check: %s"
                        [ArgString "g1"])).
Proof.
  exact (waitForKmsGrantToBeRevoked_returns 0 id "key" "g1"
           (sampleRemote [] [samplePage [sampleGrant "g1" "a"] None] [])
           _
           (mkWorld [] [] [] [CallListGrants (mkListGrantsInput "key" 100 None)])
           eq_refl).
Defined.

(** X16.  Read is idempotent on an unchanged grant: when a second Read
    finds the same grant as the first, it returns the resource data that
    the first one produced, unchanged. *)
Theorem resourceAwsKmsGrantRead_idempotent
  (retries : nat) (deadlineError : error -> error)
  (d d1 : ResourceData) (w w1 w2 : World) (g : GrantListEntry) :
  findKmsGrantByIdWithRetry retries deadlineError (key_id d) (Id d) w
  = (Ret (Some g, None), w1) ->
  findKmsGrantByIdWithRetry retries deadlineError (key_id d) (Id d) w1
  = (Ret (Some g, None), w2) ->
  resourceAwsKmsGrantRead retries deadlineError d w = (Ret (None, d1), w1) ->
  resourceAwsKmsGrantRead retries deadlineError d1 w1 = (Ret (None, d1), w2).
Proof.
  intros F1 F2 R1.
  destruct (resourceAwsKmsGrantRead_kept _ _ _ _ _ _ _ R1) as (HId & Hkey & _).
  unfold resourceAwsKmsGrantRead in *.
  rewrite (bind_run _ _ _ _ _ F1) in R1. rewrite HId, Hkey, (bind_run _ _ _ _ _ F2).
  unfold bind, lift in *.
  destruct (GranteePrincipal g) as [gp|]; simpl in *; [|done].
  destruct (Name g) as [n|]; simpl in *; [|done].
  injection R1 as <-.
  destruct (strings_HasPrefix gp "arn:aws"), (RetiringPrincipal g) as [rp|];
    try destruct (strings_HasPrefix rp "arn:aws");
    destruct (decide (n <> "")), (Constraints g); reflexivity.
Qed.

Lemma resourceAwsKmsGrantRead_idempotent_witness :
  resourceAwsKmsGrantRead 1 id
    (Set_grantee_principal "arn:aws:iam::123:role/Y" sampleData)
    (mkWorld [] [samplePage [sampleGrant "g1" "arn:aws:iam::123:role/Y"] None] []
       [CallListGrants (mkListGrantsInput "key" 100 None)])
  = (Ret (None, Set_grantee_principal "arn:aws:iam::123:role/Y" sampleData),
     mkWorld [] [] []
       [CallListGrants (mkListGrantsInput "key" 100 None);
        CallListGrants (mkListGrantsInput "key" 100 None)]).
Proof.
  exact (resourceAwsKmsGrantRead_idempotent 1 id sampleData
           (Set_grantee_principal "arn:aws:iam::123:role/Y" sampleData)
           (sampleRemote []
              [samplePage [sampleGrant "g1" "arn:aws:iam::123:role/Y"] None;
               samplePage [sampleGrant "g1" "arn:aws:iam::123:role/Y"] None] [])
           _ _ (sampleGrant "g1" "arn:aws:iam::123:role/Y")
           eq_refl eq_refl eq_refl).
Defined.

(** X17.  The hashed text tells the two kinds of constraint apart: a
    non-empty [equals] mapping and a non-empty [subset] mapping are never
    written out as the same text, whatever their entries. *)
Theorem constraintsHashBuffer_kind (m m' : StringMap) :
  m <> [] -> m' <> [] ->
  constraintsHashBuffer (mkConstraint (Some m) None)
  <> constraintsHashBuffer (mkConstraint None (Some m')).
Proof.
  intros Hm Hm'. unfold constraintsHashBuffer. simpl.
  destruct m as [|x m]; [done|]. destruct m' as [|y m']; [done|]. simpl.
  generalize (sortedConcatStringMap (x :: m) "-").
  generalize (sortedConcatStringMap (y :: m') "-").
  intros s s' H. cbv [String.append] in H. discriminate H.
Qed.

Lemma constraintsHashBuffer_kind_witness :
  constraintsHashBuffer (mkConstraint (Some [("ctx", "prod")]) None)
  <> constraintsHashBuffer (mkConstraint None (Some [("ctx", "prod")])).
Proof.
  apply (constraintsHashBuffer_kind [("ctx", "prod")] [("ctx", "prod")]);
    discriminate.
Defined.

(** X18.  When the lookup has found a grant, Read panics exactly when the
    grant lacks the grantee principal or the name, the two fields it
    dereferences without a nil check; otherwise it returns without an
    error. *)
Theorem resourceAwsKmsGrantRead_panics
  (retries : nat) (deadlineError : error -> error)
  (d : ResourceData) (w w' : World) (grant : GrantListEntry) :
  findKmsGrantByIdWithRetry retries deadlineError (key_id d) (Id d) w
  = (Ret (Some grant, None), w') ->
  (resourceAwsKmsGrantRead retries deadlineError d w = (Panic, w')
   <-> GranteePrincipal grant = None \/ Name grant = None)
  /\ (is_Some (GranteePrincipal grant) -> is_Some (Name grant) ->
      exists d',
        resourceAwsKmsGrantRead retries deadlineError d w = (Ret (None, d'), w')).
Proof.
  intros Hfind. unfold resourceAwsKmsGrantRead.
  rewrite (bind_run _ _ _ _ _ Hfind). unfold bind, lift.
  destruct (GranteePrincipal grant) as [gp|], (Name grant) as [n|]; simpl.
  all: split; [split; [try done; auto | by intros [|]]
              | try (by intros _ [? [=]]); try (by intros [? [=]] _)].
  intros _ _. by eexists.
Qed.

Lemma resourceAwsKmsGrantRead_panics_witness :
  resourceAwsKmsGrantRead 1 id sampleData
    (sampleRemote []
       [samplePage [mkGrantListEntry (Some "g1") (Some "arn:aws:iam::123:role/X")
                                     None None ["Encrypt"] None] None] [])
  = (Panic, mkWorld [] [] [] [CallListGrants (mkListGrantsInput "key" 100 None)]).
Proof.
  refine (proj2 (proj1 (resourceAwsKmsGrantRead_panics 1 id sampleData
            (sampleRemote []
               [samplePage [mkGrantListEntry (Some "g1")
                                             (Some "arn:aws:iam::123:role/X")
                                             None None ["Encrypt"] None] None] [])
            (mkWorld [] [] [] [CallListGrants (mkListGrantsInput "key" 100 None)])
            (mkGrantListEntry (Some "g1") (Some "arn:aws:iam::123:role/X")
                              None None ["Encrypt"] None)
            eq_refl)) _).
  by right.
Defined.
